(** * Ramoti-Website maintenance scripts: a shallow embedding

    Two scripts are modelled:
    - [scripts/apply_gallery_tags.py]      (module [TagApplier]),
    - [scripts/rename_photos_by_caption.py] (module [CaptionRenamer]).

    Python text is modelled as a list of 8-bit characters, read as ASCII
    code points; the case mappings and the white-space class below are
    those of Python on that range. *)

From Stdlib Require Import Ascii String List Arith Lia DecimalString DecimalNat.
From stdpp Require Import base list sorting gmap strings.

Local Open Scope list_scope.
Local Open Scope bool_scope.

Abbreviation str := (list ascii).

(** A string literal of the source, as a character list. *)
Definition lit (s : string) : str := list_ascii_of_string s.

(** ** Python string primitives *)
Module Py.

(** Characters for which [str.isspace] holds, which are also the ones
    [str.strip()], [str.split()] and the regex class [\s] act on:
    TAB..CR, FS..US and the blank. *)
Definition is_space (c : ascii) : bool :=
  let n := nat_of_ascii c in
  ((9 <=? n) && (n <=? 13)) || ((28 <=? n) && (n <=? 32)).

Definition is_upper (c : ascii) : bool :=
  let n := nat_of_ascii c in (65 <=? n) && (n <=? 90).

Definition is_lower (c : ascii) : bool :=
  let n := nat_of_ascii c in (97 <=? n) && (n <=? 122).

Definition is_digit (c : ascii) : bool :=
  let n := nat_of_ascii c in (48 <=? n) && (n <=? 57).

Definition lower_char (c : ascii) : ascii :=
  if is_upper c then ascii_of_nat (nat_of_ascii c + 32) else c.

Definition upper_char (c : ascii) : ascii :=
  if is_lower c then ascii_of_nat (nat_of_ascii c - 32) else c.

(** [str.lower] and [str.upper], on ASCII text. *)
Definition lower (s : str) : str := map lower_char s.
Definition upper (s : str) : str := map upper_char s.

(** [str.lstrip] / [str.rstrip] / [str.strip] over a character class. *)
Fixpoint lstrip (p : ascii -> bool) (s : str) : str :=
  match s with
  | [] => []
  | c :: t => if p c then lstrip p t else s
  end.

Fixpoint rstrip (p : ascii -> bool) (s : str) : str :=
  match s with
  | [] => []
  | c :: t =>
      match rstrip p t with
      | [] => if p c then [] else [c]
      | r => c :: r
      end
  end.

Definition strip_by (p : ascii -> bool) (s : str) : str :=
  rstrip p (lstrip p s).

(** [s.strip()] *)
Definition strip (s : str) : str := strip_by is_space s.

(** [s.strip(chars)] *)
Definition strip_chars (chars : str) (s : str) : str :=
  strip_by (fun c => bool_decide (c ∈ chars)) s.

(** [s.startswith(prefix)] *)
Fixpoint startswith (prefix s : str) : bool :=
  match prefix, s with
  | [], _ => true
  | _ :: _, [] => false
  | a :: p', b :: s' => bool_decide (a = b) && startswith p' s'
  end.

(** [sep.join(parts)] *)
Fixpoint join (sep : str) (parts : list str) : str :=
  match parts with
  | [] => []
  | [w] => w
  | w :: ws => w ++ sep ++ join sep ws
  end.

(** Maximal runs of characters outside the class [sep]: a right-to-left
    scan keeping the run that starts at the current position and the
    runs already closed. *)
Definition flush (w : str) (ws : list str) : list str :=
  match w with [] => ws | _ :: _ => w :: ws end.

Fixpoint scan (sep : ascii -> bool) (s : str) : str * list str :=
  match s with
  | [] => ([], [])
  | c :: t =>
      let '(w, ws) := scan sep t in
      if sep c then ([], flush w ws) else (c :: w, ws)
  end.

Definition fields (sep : ascii -> bool) (s : str) : list str :=
  let '(w, ws) := scan sep s in flush w ws.

(** [s.split()]: the white-space separated words. *)
Definition split (s : str) : list str := fields is_space s.

(** [s.replace(a, b)] for single characters [a], [b]. *)
Definition replace_char (a b : ascii) (s : str) : str :=
  map (fun c => if bool_decide (c = a) then b else c) s.

(** [w.capitalize()]: first character upper-cased, the rest lower-cased. *)
Definition capitalize (w : str) : str :=
  match w with
  | [] => []
  | c :: t => upper_char c :: lower t
  end.

(** [re.sub(r"[cls]+", repl, s)]: every maximal run of characters of the
    class is replaced by [repl]; [in_run] tells that the previous
    character belonged to the run being replaced. *)
Fixpoint sub_runs (cls : ascii -> bool) (repl : str) (in_run : bool) (s : str) : str :=
  match s with
  | [] => []
  | c :: t =>
      if cls c
      then (if in_run then [] else repl) ++ sub_runs cls repl true t
      else c :: sub_runs cls repl false t
  end.

Definition re_sub_plus (cls : ascii -> bool) (repl s : str) : str :=
  sub_runs cls repl false s.

(** [str(n)] for a natural number: its decimal digits. *)
Definition decimal (n : nat) : str := lit (NilEmpty.string_of_uint (Nat.to_uint n)).

(** [f"{i:02d}"]: the decimal digits, zero-padded to width two. *)
Definition fmt02d (i : nat) : str :=
  let d := decimal i in
  if length d <? 2 then lit "0" ++ d else d.

(** [s.endswith(suffix)] *)
Definition endswith (suffix s : str) : bool :=
  startswith (rev suffix) (rev s).

(** [s.rfind(c)] for a single character: index of its last occurrence. *)
Fixpoint rfind (c : ascii) (s : str) : option nat :=
  match s with
  | [] => None
  | x :: t =>
      match rfind c t with
      | Some i => Some (S i)
      | None => if bool_decide (x = c) then Some 0 else None
      end
  end.

(** [s.rsplit(c, 1)[0]]: the text before the last [c], or all of [s]. *)
Definition rsplit1_head (c : ascii) (s : str) : str :=
  match rfind c s with
  | Some d => take d s
  | None => s
  end.

(** Lexicographic comparison of strings by code point, [a <= b]. *)
Fixpoint str_leb (a b : str) : bool :=
  match a, b with
  | [], _ => true
  | _ :: _, [] => false
  | x :: a', y :: b' =>
      if nat_of_ascii x <? nat_of_ascii y then true
      else if nat_of_ascii y <? nat_of_ascii x then false
      else str_leb a' b'
  end.

Definition str_le (a b : str) : Prop := str_leb a b = true.

#[global] Instance str_le_dec (a b : str) : Decision (str_le a b).
Proof. unfold str_le. apply _. Defined.

(** [sorted(names)] *)
Definition sorted (names : list str) : list str := merge_sort str_le names.

(** [os.path.join(a, b)] of posixpath. *)
Definition path_join (a b : str) : str :=
  if startswith (lit "/") b then b
  else if bool_decide (a = []) || endswith (lit "/") a then a ++ b
  else a ++ lit "/" ++ b.

(** [os.path.basename(p)] of posixpath: what follows the last separator. *)
Definition basename (p : str) : str :=
  match rfind "/"%char p with
  | Some i => drop (S i) p
  | None => p
  end.

(** [os.path.splitext(p)] of posixpath: the extension starts at the last
    dot, provided that dot comes after the last separator and some
    character other than a dot stands between the two. *)
Definition splitext (p : str) : str * str :=
  let first := match rfind "/"%char p with Some i => S i | None => 0 end in
  match rfind "."%char p with
  | Some d =>
      if (first <=? d) &&
         negb (forallb (fun c => bool_decide (c = "."%char)) (take (d - first) (drop first p)))
      then (take d p, drop d p)
      else (p, [])
  | None => (p, [])
  end.

End Py.

(** The double quote and the line feed, which literals cannot spell. *)
Definition dq : str := ["034"%char].
Definition nl : str := ["010"%char].

(** What a script prints, and how a run of a script ends. *)
Inductive event :=
  | Stdout (line : str)
  | Stderr (line : str).

(** ** The caption renamer, [scripts/rename_photos_by_caption.py] *)
Module CaptionRenamer.

Definition IMAGE_EXTS : list str :=
  [lit ".jpg"; lit ".jpeg"; lit ".png"; lit ".webp"; lit ".bmp"; lit ".tiff"; lit ".gif"].

(** The class [[^a-z0-9]] and the class [_]. *)
Definition non_alnum (c : ascii) : bool := negb (Py.is_lower c || Py.is_digit c).
Definition is_us (c : ascii) : bool := bool_decide (c = "_"%char).

Definition sanitize_caption (text : str) : str :=
  let text := Py.lower (Py.strip text) in
  let text := Py.re_sub_plus non_alnum (lit "_") text in
  let text := Py.strip_chars (lit "_") (Py.re_sub_plus is_us (lit "_") text) in
  match text with
  | [] => lit "image"
  | _ :: _ => text
  end.

(** The shape of a response of the service, as far as the script looks
    at it; an absent attribute and [None] are both [None] here. *)
Record content_part := { part_type : option str; part_text : option str }.
Record output_item := { item_type : option str; item_content : list content_part }.
Record response := { output_text : option str; output : list output_item }.

(** A call of [client.responses.create] returns or raises. *)
Inductive api_result :=
  | Raises (exc : str)
  | Returns (resp : response).

Fixpoint first_output_text (parts : list content_part) : option (option str) :=
  match parts with
  | [] => None
  | p :: rest =>
      if bool_decide (part_type p = Some (lit "output_text"))
      then Some (part_text p)
      else first_output_text rest
  end.

Fixpoint scan_output (items : list output_item) : option str :=
  match items with
  | [] => None
  | item :: rest =>
      if bool_decide (item_type item = Some (lit "message"))
      then match first_output_text (item_content item) with
           | Some text => text
           | None => scan_output rest
           end
      else scan_output rest
  end.

Definition extract_output_text (resp : response) : option str :=
  match output_text resp with
  | Some (c :: t) => Some (c :: t)
  | _ => scan_output (output resp)
  end.

(** [caption_image], given what the call did: the stripped text, or the
    message of the exception that leaves the function. *)
Definition caption_image (res : api_result) : str + str :=
  match res with
  | Raises exc => inl exc
  | Returns resp =>
      match extract_output_text resp with
      | Some (c :: t) => inr (Py.strip (c :: t))
      | _ => inl (lit "No text returned from model")
      end
  end.

(** The file system, by path as the script spells it. A regular file
    holds its bytes, or [None] when it cannot be opened for reading. *)
Inductive node :=
  | File (data : option str)
  | Dir
  | Special.

Definition path_exists (fs : gmap str node) (p : str) : bool :=
  bool_decide (is_Some (fs !! p)).

Definition isfile (fs : gmap str node) (p : str) : bool :=
  match fs !! p with Some (File _) => true | _ => false end.

Definition isdir (fs : gmap str node) (p : str) : bool :=
  match fs !! p with Some Dir => true | _ => false end.

(** [os.rename(src, dst)] towards a path that [os.path.exists] reports
    as free; [None] when it raises for a missing source. Other errors of
    the operating system (a name that is too long, a folder that cannot
    be written) and a destination that is a dangling link are outside
    this file system. *)
Definition rename (fs : gmap str node) (src dst : str) : option (gmap str node) :=
  match fs !! src with
  | Some n => Some (<[dst := n]> (delete src fs))
  | None => None
  end.

(** The candidate probed with suffix [i]. *)
Definition candidate (directory base ext : str) (i : nat) : str :=
  Py.path_join directory (base ++ lit "_" ++ Py.fmt02d i ++ ext).

(** The [while True] loop of [unique_path], run for at most [fuel] probes
    from suffix [i]. *)
Fixpoint probe (fuel : nat) (fs : gmap str node) (directory base ext : str) (i : nat)
  : option str :=
  match fuel with
  | 0 => None
  | S fuel' =>
      if negb (path_exists fs (candidate directory base ext i))
      then Some (candidate directory base ext i)
      else probe fuel' fs directory base ext (S i)
  end.

Definition unique_path (fuel : nat) (fs : gmap str node) (directory base ext : str)
  : option str :=
  let candidate := Py.path_join directory (base ++ ext) in
  if negb (path_exists fs candidate) then Some candidate
  else probe fuel fs directory base ext 2.

(** The command line. [--sleep] only delays and is left out. *)
Record args := {
  dir : str;
  model : str;
  env_var : str;
  dry_run : bool;
  max_tokens : nat
}.

(** What the loop of [main] carries: the file system, the number of
    calls made to the service, and what was printed (latest first). *)
Record state := {
  st_fs : gmap str node;
  st_calls : nat;
  st_log : list event
}.

Definition say (e : event) (st : state) : state :=
  {| st_fs := st_fs st; st_calls := st_calls st; st_log := e :: st_log st |}.

Definition called (st : state) : state :=
  {| st_fs := st_fs st; st_calls := S (st_calls st); st_log := st_log st |}.

Definition with_fs (fs : gmap str node) (st : state) : state :=
  {| st_fs := fs; st_calls := st_calls st; st_log := st_log st |}.

Inductive outcome :=
  | Return (code : nat)
  | Uncaught (exc : str)
  | NoFuel.

Section Renamer.

(** Library functions and the outside world. *)
Variable guess_type : str -> option str.
Variable b64encode : str -> str.
Variable abspath : str -> str.
Variable listdir : str -> list str.
Variable getenv : str -> option str.
(** The service: call number, model, data URL and token limit. *)
Variable create : nat -> str -> str -> nat -> api_result.

Definition build_data_url (fs : gmap str node) (path : str) : option str :=
  let mime := match guess_type path with
              | Some (c :: t) => c :: t
              | _ => lit "application/octet-stream"
              end in
  match fs !! path with
  | Some (File (Some bytes)) => Some (lit "data:" ++ mime ++ lit ";base64," ++ b64encode bytes)
  | _ => None
  end.

(** One step of the generator [iter_images]: what it yields for [name],
    if anything, in the file system as it is when the step runs. *)
Definition qualify (fs : gmap str node) (folder name : str) : option (str * str * str) :=
  if Py.startswith (lit ".") name then None
  else
    let path := Py.path_join folder name in
    if negb (isfile fs path) then None
    else
      let ext := Py.lower (snd (Py.splitext name)) in
      if bool_decide (ext ∈ IMAGE_EXTS) then Some (name, path, ext) else None.

(** [iter_images] run to its end over an unchanging file system. *)
Definition iter_images (fs : gmap str node) (folder : str) : list (str * str * str) :=
  omap (qualify fs folder) (Py.sorted (listdir folder)).

(** The body of the [for] loop of [main] for one yielded image; [inr] is
    the state with which the loop goes on. *)
Definition handle (a : args) (name path ext : str) (st : state) : outcome * state + state :=
  match build_data_url (st_fs st) path with
  | None => inl (Uncaught (lit "OSError"), st)
  | Some data_url =>
      let res := create (st_calls st) (model a) data_url (max_tokens a) in
      let st := called st in
      match caption_image res with
      | inl exc =>
          inr (say (Stderr (lit "ERROR: " ++ name ++ lit ": " ++ exc)) st)
      | inr caption =>
          let base := sanitize_caption caption in
          match unique_path (S (size (st_fs st))) (st_fs st) (dir a) base ext with
          | None => inl (NoFuel, st)
          | Some new_path =>
              if bool_decide (abspath new_path = abspath path)
              then inr (say (Stdout (lit "SKIP: " ++ name ++ lit " (unchanged)")) st)
              else if dry_run a
              then inr (say (Stdout (lit "DRY: " ++ name ++ lit " -> " ++ Py.basename new_path)) st)
              else match rename (st_fs st) path new_path with
                   | None => inl (Uncaught (lit "FileNotFoundError"), st)
                   | Some fs' =>
                       inr (say (Stdout (lit "REN: " ++ name ++ lit " -> " ++ Py.basename new_path))
                              (with_fs fs' st))
                   end
          end
      end
  end.

(** The [for] loop over the sorted listing. *)
Fixpoint process (a : args) (names : list str) (st : state) : outcome * state :=
  match names with
  | [] => (Return 0, st)
  | name :: rest =>
      match qualify (st_fs st) (dir a) name with
      | None => process a rest st
      | Some (name, path, ext) =>
          match handle a name path ext st with
          | inl stop => stop
          | inr st' => process a rest st'
          end
      end
  end.

Definition main (a : args) (fs : gmap str node) : outcome * state :=
  let st := {| st_fs := fs; st_calls := 0; st_log := [] |} in
  match getenv (env_var a) with
  | Some (_ :: _) =>
      if negb (isdir fs (dir a))
      then (Return 1, say (Stderr (lit "Folder not found: " ++ dir a)) st)
      else process a (Py.sorted (listdir (dir a))) st
  | _ =>
      (Return 1, say (Stderr (lit "Missing API key. Set $" ++ env_var a ++ lit ".")) st)
  end.

End Renamer.

End CaptionRenamer.

(** ** The tag applier, [scripts/apply_gallery_tags.py] *)
Module TagApplier.

(** What [csv.DictReader] hands to the script: the header, if the file
    has one, and per record the two fields the script reads ([None]
    where the record is too short to have the field). *)
Record csv_row := { row_filename : option str; row_tag : option str }.
Record csv_file := { fieldnames : option (list str); records : list csv_row }.

Inductive exit :=
  | Completed
  | SystemExit (msg : str)
  | Exception (name : str).

(** What a run leaves behind: how it ended, the lines printed, and the
    content of [gallery.html] ([None]: no such file). *)
Record result := {
  res_exit : exit;
  res_stdout : list str;
  res_html : option str
}.

(** The loop over the reader that fills [rows]. *)
Fixpoint load_rows (rs : list csv_row) : str + list (str * str) :=
  match rs with
  | [] => inr []
  | r :: rest =>
      match row_filename r, row_tag r with
      | Some f, Some t =>
          let filename := Py.strip f in
          let tag := Py.strip t in
          match load_rows rest with
          | inl exc => inl exc
          | inr rows =>
              inr (match filename with [] => rows | _ :: _ => (filename, tag) :: rows end)
          end
      | _, _ => inl (lit "AttributeError")
      end
  end.

Definition missing_tags (rows : list (str * str)) : list str :=
  map fst (filter (fun r => snd r = []) rows).

Definition title_from_name (name : str) : str :=
  let base := Py.rsplit1_head "."%char name in
  let words := Py.split (Py.replace_char "_"%char " "%char base) in
  Py.join (lit " ") (map Py.capitalize words).

Definition card (filename tag : str) : str :=
  let title := title_from_name filename in
  nl ++ lit "            <div class=" ++ dq ++ lit "gallery-card group" ++ dq
     ++ lit " data-category=" ++ dq ++ tag ++ dq ++ lit ">" ++
  nl ++ lit "                <div class=" ++ dq ++ lit "relative overflow-hidden rounded-3xl"
     ++ dq ++ lit ">" ++
  nl ++ lit "                    <img src=" ++ dq ++ lit "photos/" ++ filename ++ dq
     ++ lit " class=" ++ dq ++ lit "w-full object-cover" ++ dq
     ++ lit " alt=" ++ dq ++ title ++ dq
     ++ lit " onclick=" ++ dq ++ lit "openLightbox(this.src)" ++ dq
     ++ lit " loading=" ++ dq ++ lit "lazy" ++ dq ++ lit ">" ++
  nl ++ lit "                </div>" ++
  nl ++ lit "            </div>".

Definition cards_html (rows : list (str * str)) : str :=
  Py.join nl (map (fun r => card (fst r) (snd r)) rows) ++ nl.

(** *** The pattern

    [(<div ... id="masonryGrid">)([\s\S]*?)(\n\s*</div>\n\s*</main>)].
    Group 1 is a literal. Group 3 is matched left to right; each [\s*]
    takes the whole run of white space, since the literal after it starts
    with [<], which is not white space, so that giving characters back
    can never help. Group 2 is lazy: it grows by one character until
    group 3 matches. [search] tries the start positions left to right. *)
Definition opener : str :=
  lit "<div class=" ++ dq ++ lit "max-w-7xl mx-auto masonry-grid" ++ dq
    ++ lit " id=" ++ dq ++ lit "masonryGrid" ++ dq ++ lit ">".

(** Match a literal at the head of [s]; the rest of [s] on success. *)
Fixpoint expect (l s : str) : option str :=
  match l, s with
  | [], _ => Some s
  | _ :: _, [] => None
  | a :: l', b :: s' => if bool_decide (a = b) then expect l' s' else None
  end.

(** Group 3 at the head of [s]; the rest of [s] on success. *)
Definition closer_at (s : str) : option str :=
  s1 ← expect nl s;
  s2 ← expect (lit "</div>") (Py.lstrip Py.is_space s1);
  s3 ← expect nl s2;
  expect (lit "</main>") (Py.lstrip Py.is_space s3).

(** Groups 2 and 3 from the head of [s]: their lengths. *)
Fixpoint lazy_body (s : str) : option (nat * nat) :=
  match closer_at s with
  | Some rest => Some (0, length s - length rest)
  | None =>
      match s with
      | [] => None
      | _ :: t =>
          match lazy_body t with
          | Some (n2, n3) => Some (S n2, n3)
          | None => None
          end
      end
  end.

(** The whole pattern at the head of [s]. *)
Definition match_at (s : str) : option (nat * nat) :=
  if Py.startswith opener s then lazy_body (drop (length opener) s) else None.

Record re_match := {
  m_start : nat;
  m_end : nat;
  group1 : str;
  group2 : str;
  group3 : str
}.

(** [pattern.search] over the text [s] that starts at index [i]. *)
Fixpoint search_from (i : nat) (s : str) : option re_match :=
  match match_at s with
  | Some (n2, n3) =>
      let n1 := length opener in
      Some {| m_start := i;
              m_end := i + n1 + n2 + n3;
              group1 := take n1 s;
              group2 := take n2 (drop n1 s);
              group3 := take n3 (drop (n1 + n2) s) |}
  | None =>
      match s with
      | [] => None
      | _ :: t => search_from (S i) t
      end
  end.

Definition search (html : str) : option re_match := search_from 0 html.

(** Lines 54-61: the new document, or [None] without a match. *)
Definition splice (cards_html html : str) : option str :=
  match search html with
  | None => None
  | Some m =>
      let new_block := group1 m ++ nl ++ cards_html ++ group3 m in
      Some (take (m_start m) html ++ new_block ++ drop (m_end m) html)
  end.

Definition stop (e : exit) (out : list str) (html : option str) : result :=
  {| res_exit := e; res_stdout := out; res_html := html |}.

(** The script, run on the CSV file ([None]: it does not exist) and on
    the content of [gallery.html] as text: what [read_text] returns, and
    what [write_text] is given. *)
Definition run (csv : option csv_file) (html : option str) : result :=
  match csv with
  | None => stop (SystemExit (lit "gallery-tags.csv not found")) [] html
  | Some f =>
      match fieldnames f with
      | None => stop (Exception (lit "TypeError")) [] html
      | Some names =>
          if negb (bool_decide (lit "filename" ∈ names))
             || negb (bool_decide (lit "tag" ∈ names))
          then stop (SystemExit (lit "CSV must have headers: filename, tag")) [] html
          else
            match load_rows (records f) with
            | inl exc => stop (Exception exc) [] html
            | inr [] => stop (SystemExit (lit "No rows found in CSV")) [] html
            | inr rows =>
                match missing_tags rows with
                | (_ :: _) as missing =>
                    stop (SystemExit (lit "Please fill all tags before applying."))
                      (lit "Missing tags for these files:"
                         :: map (fun name => lit " - " ++ name) missing)
                      html
                | [] =>
                    match html with
                    | None => stop (Exception (lit "FileNotFoundError")) [] html
                    | Some text =>
                        match splice (cards_html rows) text with
                        | None =>
                            stop (SystemExit
                                    (lit "Could not find masonryGrid container in gallery.html"))
                              [] html
                        | Some text' =>
                            stop Completed
                              [lit "Updated gallery.html with " ++ Py.decimal (length rows)
                                 ++ lit " tagged photos"]
                              (Some text')
                        end
                    end
                end
            end
      end
  end.

End TagApplier.

(** ** The behaviour as the specification words it *)
Module Spec.

(** Caption sanitization: lowercase, collapse any run of characters that
    are not lowercase alphanumerics to a single underscore, trim leading
    and trailing underscores, and fall back to a fixed base name. *)
Definition sanitize (text : str) : str :=
  let lowered := Py.lower text in
  let collapsed := Py.re_sub_plus CaptionRenamer.non_alnum (lit "_") lowered in
  match Py.strip_chars (lit "_") collapsed with
  | [] => lit "image"
  | c :: t => c :: t
  end.

(** Title derivation from a name without its extension: its words, which
    underscores and white space separate, each capitalized, joined by
    single blanks. *)
Definition word_sep (c : ascii) : bool :=
  Py.is_space c || bool_decide (c = "_"%char).

Definition title_of_base (base : str) : str :=
  Py.join (lit " ") (map Py.capitalize (Py.fields word_sep base)).

(** A record of the CSV file is retained under [name] with an empty tag:
    its file name, trimmed, is [name] and not empty, and its tag, trimmed,
    is empty. *)
Definition untagged (r : TagApplier.csv_row) (name : str) : Prop :=
  exists f t,
    TagApplier.row_filename r = Some f /\ TagApplier.row_tag r = Some t /\
    Py.strip f = name /\ name <> [] /\ Py.strip t = [].

(** A record has both fields. *)
Definition complete (r : TagApplier.csv_row) : Prop :=
  is_Some (TagApplier.row_filename r) /\ is_Some (TagApplier.row_tag r).

(** The language of group 3 of the pattern, [\n\s*</div>\n\s*</main>]. *)
Definition closing (g3 : str) : Prop :=
  exists ws1 ws2,
    Forall (fun c => Py.is_space c = true) ws1 /\
    Forall (fun c => Py.is_space c = true) ws2 /\
    g3 = nl ++ ws1 ++ lit "</div>" ++ nl ++ ws2 ++ lit "</main>".

(** The pattern has a match that starts at index [i] of the text: the
    opening tag, any text, and a closing sequence. *)
Definition anchor_at (html : str) (i : nat) : Prop :=
  exists g2 g3 post,
    closing g3 /\ drop i html = TagApplier.opener ++ g2 ++ g3 ++ post.


End Spec.

(** ** Auxiliary definitions used in the statements and proofs *)
Module Aux.

(** Reading a decimal back, leading zeros allowed. *)
Definition read_nat (s : str) : option nat :=
  option_map Nat.of_uint (NilEmpty.uint_of_string (string_of_list_ascii s)).

(** The class of [text.strip("_")]. *)
Definition us_class (c : ascii) : bool := bool_decide (c ∈ lit "_").

(** The match object for a match found [k] characters into the text [s]
    that starts at index [i], with groups 2 and 3 of lengths [n2], [n3]. *)
Definition found (i : nat) (s : str) (k n2 n3 : nat) : TagApplier.re_match :=
  let n1 := length TagApplier.opener in
  {| TagApplier.m_start := i + k;
     TagApplier.m_end := i + k + n1 + n2 + n3;
     TagApplier.group1 := take n1 (drop k s);
     TagApplier.group2 := take n2 (drop n1 (drop k s));
     TagApplier.group3 := take n3 (drop (n1 + n2) (drop k s)) |}.


End Aux.

(** ** Concrete inputs *)
Module Fixtures.
Import CaptionRenamer.

(** A folder [photos] holding [photo.jpg] and [photo_02.jpg]. *)
Definition two_photos : gmap str node :=
  <[lit "photos/photo.jpg" := File (Some [])]>
    (<[lit "photos/photo_02.jpg" := File (Some [])]> ∅).

(** A CSV file with one tagged photo. *)
Definition tagged_csv : TagApplier.csv_file :=
  {| TagApplier.fieldnames := Some [lit "filename"; lit "tag"];
     TagApplier.records :=
       [ {| TagApplier.row_filename := Some (lit "a.jpg");
            TagApplier.row_tag := Some (lit "beach") |} ] |}.

(** A CSV file in which the second and the third photo have no tag. *)
Definition untagged_csv : TagApplier.csv_file :=
  {| TagApplier.fieldnames := Some [lit "filename"; lit "tag"];
     TagApplier.records :=
       [ {| TagApplier.row_filename := Some (lit "a.jpg");
            TagApplier.row_tag := Some (lit "beach") |};
         {| TagApplier.row_filename := Some (lit "b.jpg");
            TagApplier.row_tag := Some (lit "  ") |};
         {| TagApplier.row_filename := Some (lit " c.jpg");
            TagApplier.row_tag := Some [] |} ] |}.

(** A CSV file whose first record has an empty tag and whose second
    record is short: the line [b.jpg] gives no tag field. *)
Definition short_row_csv : TagApplier.csv_file :=
  {| TagApplier.fieldnames := Some [lit "filename"; lit "tag"];
     TagApplier.records :=
       [ {| TagApplier.row_filename := Some (lit "a.jpg");
            TagApplier.row_tag := Some [] |};
         {| TagApplier.row_filename := Some (lit "b.jpg");
            TagApplier.row_tag := None |} ] |}.

(** A page with the grid container, holding some earlier content. *)
Definition gallery : str :=
  lit "<main>" ++ nl ++ TagApplier.opener ++ nl ++ lit "  old" ++ nl
    ++ lit "  </div>" ++ nl ++ lit "</main>" ++ nl.

(** The same page twice over: the pattern matches in both halves. *)
Definition double_gallery : str := gallery ++ gallery.

(** A folder [photos] holding [photo.jpg] only. *)
Definition one_photo : gmap str node :=
  <[lit "photos" := Dir]> (<[lit "photos/photo.jpg" := File (Some [])]> ∅).

(** The renamer: the command line, the library functions and a service
    whose first call fails and whose later calls answer [Photo]. *)
Definition renamer_args (dry : bool) : CaptionRenamer.args :=
  {| CaptionRenamer.dir := lit "photos";
     CaptionRenamer.model := lit "gpt-4.1-mini";
     CaptionRenamer.env_var := lit "OPENAI_API_KEY";
     CaptionRenamer.dry_run := dry;
     CaptionRenamer.max_tokens := 80 |}.

Definition guess_jpeg (path : str) : option str := Some (lit "image/jpeg").

Definition b64_plain (bytes : str) : str := bytes.

Definition abspath_srv (path : str) : str := lit "/srv/" ++ path.

Definition photo_answer : CaptionRenamer.response :=
  {| CaptionRenamer.output_text := Some (lit "Photo"); CaptionRenamer.output := [] |}.


Definition steady_service (call : nat) (model data_url : str) (limit : nat)
  : CaptionRenamer.api_result :=
  CaptionRenamer.Returns photo_answer.

Definition listdir_photos (folder : str) : list str :=
  [lit "photo_02.jpg"; lit "photo.jpg"].

Definition getenv_key (name : str) : option str := Some (lit "sk-test").


End Fixtures.

(** ** Definitions for the further properties *)
Module Extra.

(** A character of a sanitized base name. *)
Definition name_char (c : ascii) : bool :=
  Py.is_lower c || Py.is_digit c || bool_decide (c = "_"%char).

(** A word over a class of separators: not empty, no separator in it. *)
Definition word (sep : ascii -> bool) (w : str) : Prop :=
  w <> [] /\ Forall (fun c => sep c = false) w.

(** The words of a lowercased caption. *)
Definition base_words (text : str) : list str :=
  Py.fields CaptionRenamer.non_alnum (Py.lower text).

(** A character of a destination file name. *)
Definition file_char (c : ascii) : Prop := name_char c = true \/ c = "."%char.

(** What the loading loop keeps of a record: the trimmed file name and
    tag, unless the file name is empty or a field is absent. *)
Definition retain (r : TagApplier.csv_row) : option (str * str) :=
  match TagApplier.row_filename r, TagApplier.row_tag r with
  | Some f, Some t =>
      match Py.strip f with
      | [] => None
      | c :: n => Some (c :: n, Py.strip t)
      end
  | _, _ => None
  end.

(** The name under which a record is kept without a tag, if it is. *)
Definition untagged_name (r : TagApplier.csv_row) : option str :=
  match retain r with
  | Some (name, []) => Some name
  | _ => None
  end.

(** A capitalized word: no lowercase letter in front, no capital after. *)
Definition capitalized (w : str) : Prop :=
  exists c t, w = c :: t /\ Py.is_lower c = false /\ Forall (fun x => Py.is_upper x = false) t.

(** A card with the line feed that precedes it in the page. *)
Definition block (r : str * str) : str := nl ++ TagApplier.card (fst r) (snd r).

(** A row whose file name and tag hold no line feed. *)
Definition one_line (r : str * str) : Prop :=
  ("010"%char ∉ fst r) /\ ("010"%char ∉ snd r).

(** No closing sequence of the pattern starts inside [a] in [a ++ rest]. *)
Definition no_closing_in (a rest : str) : Prop :=
  forall k, k < length a -> TagApplier.closer_at (drop k (a ++ rest)) = None.

(** A text after which a line [</div>] cannot end the pattern: a line
    feed, white space, and then something other than [</main>]. *)
Definition goes_on (x : str) : Prop :=
  exists x', x = nl ++ x' /\
    TagApplier.expect (lit "</main>") (Py.lstrip Py.is_space x') = None.

(** An item that [extract_output_text] passes over: not a message, or a
    message without a part of type [output_text]. *)
Definition passed_over (item : CaptionRenamer.output_item) : Prop :=
  CaptionRenamer.item_type item <> Some (lit "message") \/
  Forall (fun p => CaptionRenamer.part_type p <> Some (lit "output_text"))
    (CaptionRenamer.item_content item).

(** A text of ASCII characters, on which [str.upper] is the mapping of
    [a]..[z] onto [A]..[Z]. *)
Definition seven_bit (s : str) : Prop :=
  Forall (fun c => nat_of_ascii c < 128) s.

(** The text that [read_text] returns for the characters of a file, in
    the universal newlines mode of Python: each carriage return with the
    line feed after it, and each carriage return alone, is read as one
    line feed. *)
Fixpoint read_text (raw : str) : str :=
  match raw with
  | [] => []
  | c :: rest =>
      if bool_decide (c = "013"%char)
      then match rest with
           | "010"%char :: _ => read_text rest
           | _ => "010"%char :: read_text rest
           end
      else c :: read_text rest
  end.

(** A row whose file name and tag hold no carriage return. *)
Definition no_return (r : str * str) : Prop :=
  ("013"%char ∉ fst r) /\ ("013"%char ∉ snd r).

End Extra.

(** * Facts on the string primitives *)
Module PyFacts.
Import Py.

Lemma rstrip_cons_keep p c r : p c = false -> rstrip p (c :: r) = c :: rstrip p r.
Proof. intros Hc. simpl. rewrite Hc. destruct (rstrip p r); reflexivity. Qed.

Lemma rstrip_cons_drop p c r :
  p c = true -> rstrip p (c :: r) = match rstrip p r with [] => [] | _ :: _ => c :: rstrip p r end.
Proof. intros Hc. simpl. rewrite Hc. destruct (rstrip p r); reflexivity. Qed.

Lemma lstrip_map p f s :
  (forall c, p (f c) = p c) -> lstrip p (map f s) = map f (lstrip p s).
Proof.
  intros Hf. induction s as [|c t IH]; simpl; [reflexivity|].
  rewrite Hf. destruct (p c); [exact IH | reflexivity].
Qed.

Lemma rstrip_map p f s :
  (forall c, p (f c) = p c) -> rstrip p (map f s) = map f (rstrip p s).
Proof.
  intros Hf. induction s as [|c t IH]; simpl; [reflexivity|].
  rewrite IH, Hf. destruct (rstrip p t); simpl; [destruct (p c)|]; reflexivity.
Qed.

Section Fields.
Variable sep : ascii -> bool.

Lemma scan_cons c t :
  scan sep (c :: t) =
    if sep c then ([], flush (scan sep t).1 (scan sep t).2)
    else (c :: (scan sep t).1, (scan sep t).2).
Proof. simpl. destruct (scan sep t). reflexivity. Qed.

Lemma fields_eq s : fields sep s = flush (scan sep s).1 (scan sep s).2.
Proof. unfold fields. destruct (scan sep s). reflexivity. Qed.

Lemma fields_cons_sep c t : sep c = true -> fields sep (c :: t) = fields sep t.
Proof. intros Hc. rewrite !fields_eq, scan_cons, Hc. reflexivity. Qed.

Lemma scan_nonempty s : Forall (fun w => w <> []) (scan sep s).2.
Proof.
  induction s as [|c t IH]; [constructor|].
  rewrite scan_cons. destruct (sep c); simpl; [|exact IH].
  destruct (scan sep t).1; simpl; [exact IH|]. constructor; [discriminate | exact IH].
Qed.

Lemma fields_nonempty s : Forall (fun w => w <> []) (fields sep s).
Proof.
  rewrite fields_eq. pose proof (scan_nonempty s) as H.
  destruct (scan sep s).1; simpl; [exact H|]. constructor; [discriminate | exact H].
Qed.

Lemma scan_lstrip p s :
  (forall c, p c = true -> sep c = true) -> fields sep (lstrip p s) = fields sep s.
Proof.
  intros Hp. induction s as [|c t IH]; [reflexivity|]. simpl lstrip.
  destruct (p c) eqn:Hc; [|reflexivity].
  rewrite IH. symmetry. apply fields_cons_sep, Hp, Hc.
Qed.

Lemma scan_rstrip p s :
  (forall c, p c = true -> sep c = true) -> scan sep (rstrip p s) = scan sep s.
Proof.
  intros Hp. induction s as [|c t IH]; [reflexivity|].
  rewrite scan_cons, <- IH. simpl rstrip.
  destruct (rstrip p t) as [|x r] eqn:Hr.
  - destruct (p c) eqn:Hc.
    + rewrite (Hp _ Hc). reflexivity.
    + rewrite scan_cons. reflexivity.
  - rewrite scan_cons. reflexivity.
Qed.

Lemma fields_strip_by p s :
  (forall c, p c = true -> sep c = true) -> fields sep (strip_by p s) = fields sep s.
Proof.
  intros Hp. unfold strip_by. rewrite fields_eq, scan_rstrip, <- fields_eq by exact Hp.
  apply scan_lstrip, Hp.
Qed.

End Fields.

Lemma join_nil_iff sep ws :
  Forall (fun w => w <> []) ws -> join sep ws = [] -> ws = [].
Proof.
  intros Hne. destruct ws as [|w ws]; [reflexivity|].
  inversion Hne as [|? ? Hw _]; subst.
  destruct w; [congruence|]. destruct ws; discriminate.
Qed.

Lemma join_cons sep w ws :
  join sep (w :: ws) = w ++ match ws with [] => [] | _ :: _ => sep ++ join sep ws end.
Proof. destruct ws; simpl; [rewrite app_nil_r|]; reflexivity. Qed.

(** Replacing the runs of a class by one character [u] of that class. *)
Section Runs.
Variable sep : ascii -> bool.
Variable u : ascii.
Variable p : ascii -> bool.
Hypothesis sep_u : sep u = true.
Hypothesis p_spec : forall c, p c = true <-> c = u.

Lemma p_u : p u = true.
Proof. apply p_spec. reflexivity. Qed.

Lemma p_not_sep c : sep c = false -> p c = false.
Proof.
  intros Hc. destruct (p c) eqn:E; [|reflexivity].
  apply p_spec in E. subst. congruence.
Qed.

Lemma lstrip_sub_runs_true s :
  lstrip p (sub_runs sep [u] true s) = sub_runs sep [u] true s.
Proof.
  induction s as [|c t IH]; [reflexivity|]. simpl.
  destruct (sep c) eqn:Hc; simpl; [exact IH|].
  rewrite (p_not_sep _ Hc). reflexivity.
Qed.

Lemma lstrip_sub_runs b s :
  lstrip p (sub_runs sep [u] b s) = sub_runs sep [u] true s.
Proof.
  destruct s as [|c t]; [reflexivity|]. simpl.
  destruct (sep c) eqn:Hc.
  - destruct b; simpl; [|rewrite p_u]; apply lstrip_sub_runs_true.
  - simpl. rewrite (p_not_sep _ Hc). reflexivity.
Qed.

Lemma rstrip_sub_runs s :
  rstrip p (sub_runs sep [u] true s) = join [u] (fields sep s).
Proof.
  induction s as [|c t IH]; [reflexivity|].
  destruct (sep c) eqn:Hc.
  - rewrite (fields_cons_sep _ _ _ Hc). simpl. rewrite Hc. exact IH.
  - simpl sub_runs. rewrite Hc.
    rewrite (rstrip_cons_keep _ _ _ (p_not_sep _ Hc)).
    rewrite fields_eq, scan_cons, Hc. simpl flush. rewrite join_cons. simpl. f_equal.
    destruct t as [|c' t']; [reflexivity|].
    pose proof (fields_nonempty sep (c' :: t')) as Hne.
    rewrite fields_eq, scan_cons in IH, Hne. rewrite scan_cons.
    simpl sub_runs in *. destruct (sep c') eqn:Hc'; simpl fst in *; simpl snd in *.
    + simpl app. rewrite (rstrip_cons_drop _ _ _ p_u).
      simpl flush in IH, Hne. rewrite IH.
      destruct (flush (scan sep t').1 (scan sep t').2) as [|w ws] eqn:Hf.
      * reflexivity.
      * destruct (join [u] (w :: ws)) eqn:Hj; [|reflexivity].
        apply join_nil_iff in Hj; [discriminate | exact Hne].
    + simpl flush in IH. rewrite IH, join_cons. reflexivity.
Qed.

Lemma strip_sub_runs b s :
  strip_by p (sub_runs sep [u] b s) = join [u] (fields sep s).
Proof. unfold strip_by. rewrite lstrip_sub_runs. apply rstrip_sub_runs. Qed.

(** A second pass over a narrower class finds every run already single. *)
Lemma sub_runs_again sep' b s :
  (forall c, sep' c = true -> sep c = true) -> sep' u = true ->
  sub_runs sep' [u] b (sub_runs sep [u] b s) = sub_runs sep [u] b s.
Proof.
  intros Hsub Hu. revert b. induction s as [|c t IH]; intros b; [reflexivity|].
  simpl. destruct (sep c) eqn:Hc.
  - destruct b; simpl; [apply IH|]. rewrite Hu. simpl. f_equal. apply IH.
  - simpl. destruct (sep' c) eqn:Hc'; [rewrite (Hsub _ Hc') in Hc; discriminate|].
    f_equal. apply IH.
Qed.

End Runs.
End PyFacts.

Module SanitizeFacts.
Import Py PyFacts CaptionRenamer Aux.

Lemma us_class_spec c : us_class c = true <-> c = "_"%char.
Proof.
  unfold us_class. rewrite bool_decide_eq_true. unfold lit. simpl.
  rewrite list_elem_of_singleton. reflexivity.
Qed.

Lemma non_alnum_us : non_alnum "_"%char = true.
Proof. reflexivity. Qed.

Lemma is_us_non_alnum c : is_us c = true -> non_alnum c = true.
Proof. unfold is_us. rewrite bool_decide_eq_true. intros ->. reflexivity. Qed.

Lemma is_space_non_alnum c : is_space c = true -> non_alnum c = true.
Proof.
  unfold is_space, non_alnum, is_lower, is_digit.
  generalize (nat_of_ascii c). intros n H.
  apply negb_true_iff, orb_false_iff.
  rewrite !andb_false_iff, !Nat.leb_gt.
  rewrite orb_true_iff, !andb_true_iff, !Nat.leb_le in H. lia.
Qed.

Lemma is_space_lower_char c : is_space (lower_char c) = is_space c.
Proof.
  unfold lower_char. destruct (is_upper c) eqn:Hu; [|reflexivity].
  unfold is_upper in Hu. apply andb_true_iff in Hu as [H1 H2].
  apply Nat.leb_le in H1, H2.
  unfold is_space. rewrite nat_ascii_embedding by lia.
  transitivity false; [|symmetry];
    apply orb_false_iff; rewrite !andb_false_iff, !Nat.leb_gt; lia.
Qed.

Lemma lower_strip s : lower (strip s) = strip (lower s).
Proof.
  unfold lower, strip, strip_by.
  rewrite <- rstrip_map, <- lstrip_map by apply is_space_lower_char. reflexivity.
Qed.

(** The caption, sanitized, is made of the maximal runs of lowercase
    alphanumerics of the lowercased text, joined by single underscores. *)
Lemma sanitize_caption_fields text :
  sanitize_caption text =
    match join (lit "_") (fields non_alnum (lower text)) with
    | [] => lit "image"
    | c :: t => c :: t
    end.
Proof.
  unfold sanitize_caption, re_sub_plus, strip_chars.
  change (lit "_") with ["_"%char].
  rewrite (sub_runs_again non_alnum "_"%char is_us false _ is_us_non_alnum eq_refl).
  rewrite (strip_sub_runs non_alnum "_"%char us_class non_alnum_us us_class_spec).
  rewrite lower_strip. unfold strip.
  rewrite (fields_strip_by non_alnum is_space _ is_space_non_alnum).
  destruct (join _ _); reflexivity.
Qed.

Lemma spec_sanitize_fields text :
  Spec.sanitize text =
    match join (lit "_") (fields non_alnum (lower text)) with
    | [] => lit "image"
    | c :: t => c :: t
    end.
Proof.
  unfold Spec.sanitize, re_sub_plus, strip_chars.
  change (lit "_") with ["_"%char].
  rewrite (strip_sub_runs non_alnum "_"%char us_class non_alnum_us us_class_spec).
  reflexivity.
Qed.

End SanitizeFacts.

(** C5. For every input text, [sanitize_caption] computes what the
    specification describes: the lowercased text with every run of
    characters other than lowercase alphanumerics collapsed to a single
    underscore, leading and trailing underscores trimmed, and the fixed
    base name [image] for an empty result; and the caption
    ["  A Walk On The Beach!! "] becomes ["a_walk_on_the_beach"]. *)
Theorem sanitize_caption_correct :
  (forall text, CaptionRenamer.sanitize_caption text = Spec.sanitize text) /\
  CaptionRenamer.sanitize_caption (lit "  A Walk On The Beach!! ") = lit "a_walk_on_the_beach".
Proof.
  split.
  - intros text.
    rewrite SanitizeFacts.sanitize_caption_fields, SanitizeFacts.spec_sanitize_fields.
    reflexivity.
  - vm_compute. reflexivity.
Qed.

(** * The unique destination path *)
Module PathFacts.
Import Py Aux.

Lemma read_decimal n : read_nat (decimal n) = Some n.
Proof.
  unfold read_nat, decimal, lit.
  rewrite string_of_list_ascii_of_string, NilEmpty.usu. simpl.
  f_equal. apply Unsigned.of_to.
Qed.

Lemma read_fmt02d n : read_nat (fmt02d n) = Some n.
Proof.
  unfold fmt02d. destruct (length (decimal n) <? 2); [|apply read_decimal].
  pose proof (read_decimal n) as H. unfold read_nat in *.
  change (lit "0" ++ decimal n) with ("0"%char :: decimal n). simpl.
  destruct (NilEmpty.uint_of_string (string_of_list_ascii (decimal n))) as [d|];
    [|discriminate].
  simpl in *. exact H.
Qed.

Lemma fmt02d_inj i j : fmt02d i = fmt02d j -> i = j.
Proof.
  intros H. pose proof (read_fmt02d i) as Hi. rewrite H, read_fmt02d in Hi.
  congruence.
Qed.

(** All candidate names share their directory prefix. *)
Lemma path_join_prefix a b x y :
  b <> [] ->
  exists pre, path_join a (b ++ x) = pre ++ b ++ x /\ path_join a (b ++ y) = pre ++ b ++ y.
Proof.
  intros Hb. unfold path_join.
  assert (startswith (lit "/") (b ++ x) = startswith (lit "/") (b ++ y)) as ->.
  { destruct b; [congruence | reflexivity]. }
  destruct (startswith (lit "/") (b ++ y)).
  - exists []. split; reflexivity.
  - destruct (bool_decide (a = []) || endswith (lit "/") a).
    + exists a. split; reflexivity.
    + exists (a ++ lit "/"). rewrite <- !app_assoc. split; reflexivity.
Qed.

End PathFacts.

Module UniquePath.
Import Py PathFacts CaptionRenamer.

Lemma candidate_inj directory base ext i j :
  candidate directory base ext i = candidate directory base ext j -> i = j.
Proof.
  unfold candidate. intros H.
  destruct (path_join_prefix directory (base ++ lit "_") (fmt02d i ++ ext) (fmt02d j ++ ext))
    as (pre & Hi & Hj).
  { destruct base; discriminate. }
  rewrite <- !app_assoc in Hi, Hj. rewrite Hi, Hj in H.
  apply app_inv_head, app_inv_head, app_inv_head, app_inv_tail in H.
  apply fmt02d_inj, H.
Qed.

Lemma probe_some fuel fs directory base ext i p :
  probe fuel fs directory base ext i = Some p ->
  exists k, k < fuel /\ p = candidate directory base ext (i + k) /\
            path_exists fs p = false /\
            forall j, i <= j < i + k -> path_exists fs (candidate directory base ext j) = true.
Proof.
  revert i. induction fuel as [|fuel IH]; intros i; [discriminate|].
  cbn [probe].
  destruct (path_exists fs (candidate directory base ext i)) eqn:He; simpl.
  - intros H. destruct (IH _ H) as (k & Hk & -> & Hp & Hall).
    exists (S k). split; [lia|]. split; [f_equal; lia|]. split; [exact Hp|].
    intros j Hj. destruct (decide (j = i)) as [->|Hne]; [exact He|]. apply Hall. lia.
  - intros [= <-]. exists 0. split; [lia|]. rewrite Nat.add_0_r.
    split; [reflexivity|]. split; [exact He|]. intros j Hj. lia.
Qed.

Lemma probe_none fuel fs directory base ext i :
  probe fuel fs directory base ext i = None ->
  forall j, i <= j < i + fuel -> path_exists fs (candidate directory base ext j) = true.
Proof.
  revert i. induction fuel as [|fuel IH]; intros i; [intros _ j Hj; lia|].
  cbn [probe].
  destruct (path_exists fs (candidate directory base ext i)) eqn:He; simpl; [|discriminate].
  intros H j Hj. destruct (decide (j = i)) as [->|Hne]; [exact He|].
  apply (IH _ H). lia.
Qed.

(** No more distinct paths exist than the file system has entries. *)
Lemma existing_paths_bound (fs : gmap str node) (l : list str) :
  NoDup l -> (forall p, p ∈ l -> path_exists fs p = true) -> length l <= size fs.
Proof.
  intros Hnd Hall.
  rewrite <- size_dom. unfold size, set_size. simpl.
  apply submseteq_length, NoDup_submseteq; [exact Hnd|].
  intros p Hp. apply elem_of_elements, elem_of_dom.
  specialize (Hall _ Hp). unfold path_exists in Hall.
  apply bool_decide_eq_true in Hall. exact Hall.
Qed.

Lemma probe_terminates fuel fs directory base ext i :
  size fs < fuel -> is_Some (probe fuel fs directory base ext i).
Proof.
  intros Hfuel. destruct (probe fuel fs directory base ext i) eqn:Hp; [eauto|].
  exfalso. pose proof (probe_none _ _ _ _ _ _ Hp) as Hall.
  pose proof (existing_paths_bound fs (map (candidate directory base ext) (seq i fuel))) as Hb.
  rewrite length_map, length_seq in Hb. enough (fuel <= size fs) by lia. apply Hb.
  - apply NoDup_fmap_2; [|apply NoDup_seq]. intros x y. apply candidate_inj.
  - intros p Hin. apply list_elem_of_fmap in Hin as (j & -> & Hj).
    apply Hall. apply elem_of_seq in Hj. lia.
Qed.

End UniquePath.

Section UniquePathCorrect.
Import Py CaptionRenamer Fixtures.

(** C6. With fuel beyond the number of entries of the file system,
    [unique_path] returns: [base.ext] if that path does not exist;
    otherwise the first of [base_02.ext], [base_03.ext], ... (suffix
    [i >= 2], zero-padded to two digits) that does not exist, every
    earlier candidate existing. With [photo.jpg] and [photo_02.jpg]
    there and [photo_03.jpg] not, the result is [photo_03.jpg]. *)
Theorem unique_path_correct (fuel : nat) (fs : gmap str node) (directory base ext : str)
    (Hfuel : size fs < fuel) :
  (path_exists fs (path_join directory (base ++ ext)) = false ->
   unique_path fuel fs directory base ext = Some (path_join directory (base ++ ext))) /\
  (path_exists fs (path_join directory (base ++ ext)) = true ->
   exists i, 2 <= i /\
     unique_path fuel fs directory base ext
       = Some (path_join directory (base ++ lit "_" ++ fmt02d i ++ ext)) /\
     path_exists fs (path_join directory (base ++ lit "_" ++ fmt02d i ++ ext)) = false /\
     forall j, 2 <= j < i ->
       path_exists fs (path_join directory (base ++ lit "_" ++ fmt02d j ++ ext)) = true) /\
  (path_exists fs (path_join directory (lit "photo.jpg")) = true ->
   path_exists fs (path_join directory (lit "photo_02.jpg")) = true ->
   path_exists fs (path_join directory (lit "photo_03.jpg")) = false ->
   unique_path fuel fs directory (lit "photo") (lit ".jpg")
     = Some (path_join directory (lit "photo_03.jpg"))).
Proof.
  assert (Hsecond : forall b e,
    path_exists fs (path_join directory (b ++ e)) = true ->
    exists i, 2 <= i /\
      unique_path fuel fs directory b e = Some (candidate directory b e i) /\
      path_exists fs (candidate directory b e i) = false /\
      forall j, 2 <= j < i -> path_exists fs (candidate directory b e j) = true).
  { intros b e He. unfold unique_path. rewrite He. simpl.
    destruct (UniquePath.probe_terminates fuel fs directory b e 2 Hfuel) as [p Hp].
    destruct (UniquePath.probe_some _ _ _ _ _ _ _ Hp) as (k & _ & -> & Hfree & Hall).
    exists (2 + k). split; [lia|]. split; [exact Hp|]. split; [exact Hfree|]. exact Hall. }
  split; [|split].
  - intros He. unfold unique_path. rewrite He. reflexivity.
  - apply Hsecond.
  - intros H1 H2 H3.
    destruct (Hsecond (lit "photo") (lit ".jpg") H1) as (i & Hi & -> & Hfree & Hall).
    destruct (decide (i = 2)) as [->|Hne2].
    { change (candidate directory (lit "photo") (lit ".jpg") 2)
        with (path_join directory (lit "photo_02.jpg")) in Hfree. congruence. }
    destruct (decide (i = 3)) as [->|Hne3]; [reflexivity|].
    specialize (Hall 3 ltac:(lia)).
    change (candidate directory (lit "photo") (lit ".jpg") 3)
      with (path_join directory (lit "photo_03.jpg")) in Hall. congruence.
Qed.

Lemma unique_path_correct_witness :
  unique_path 3 two_photos (lit "photos") (lit "photo") (lit ".jpg")
    = Some (lit "photos/photo_03.jpg").
Proof.
  apply (unique_path_correct 3 two_photos (lit "photos") (lit "photo") (lit ".jpg"));
    vm_compute; solve [reflexivity | lia].
Defined.

End UniquePathCorrect.

(** * The enumeration of images *)
Module OrderFacts.
Import Py.

Lemma str_leb_total a b : str_leb a b = true \/ str_leb b a = true.
Proof.
  revert b. induction a as [|x a IH]; intros [|y b]; simpl; auto.
  destruct (nat_of_ascii x <? nat_of_ascii y) eqn:Hxy; [auto|].
  destruct (nat_of_ascii y <? nat_of_ascii x) eqn:Hyx; [auto|].
  apply IH.
Qed.

Lemma str_leb_trans a b c : str_leb a b = true -> str_leb b c = true -> str_leb a c = true.
Proof.
  revert b c. induction a as [|x a IH]; intros [|y b] [|z c]; simpl; try congruence.
  destruct (nat_of_ascii x <? nat_of_ascii y) eqn:Hxy;
  destruct (nat_of_ascii y <? nat_of_ascii x) eqn:Hyx;
  destruct (nat_of_ascii y <? nat_of_ascii z) eqn:Hyz;
  destruct (nat_of_ascii z <? nat_of_ascii y) eqn:Hzy;
  destruct (nat_of_ascii x <? nat_of_ascii z) eqn:Hxz;
  destruct (nat_of_ascii z <? nat_of_ascii x) eqn:Hzx;
  try congruence;
  try (rewrite ?Nat.ltb_lt, ?Nat.ltb_ge in *; lia).
  apply IH.
Qed.

#[global] Instance str_le_total : Total str_le.
Proof. intros a b. apply str_leb_total. Qed.

#[global] Instance str_le_trans : Transitive str_le.
Proof. intros a b c. apply str_leb_trans. Qed.

Lemma sorted_sorted names : StronglySorted str_le (sorted names).
Proof. apply StronglySorted_merge_sort; apply _. Qed.

Lemma elem_of_sorted name names : name ∈ sorted names <-> name ∈ names.
Proof. unfold sorted. rewrite merge_sort_Permutation. reflexivity. Qed.

End OrderFacts.

Section IterImages.
Import Py CaptionRenamer.
Variable listdir : str -> list str.

Lemma qualify_some fs folder name y :
  qualify fs folder name = Some y <->
  y = (name, path_join folder name, lower (splitext name).2) /\
  startswith (lit ".") name = false /\
  isfile fs (path_join folder name) = true /\
  lower (splitext name).2 ∈ IMAGE_EXTS.
Proof.
  unfold qualify.
  destruct (startswith (lit ".") name); [intuition congruence|].
  destruct (isfile fs (path_join folder name)); simpl; [|intuition congruence].
  case_bool_decide; intuition congruence.
Qed.

Lemma omap_qualify_sorted fs folder names :
  StronglySorted str_le names ->
  StronglySorted str_le (map (fun y => y.1.1) (omap (qualify fs folder) names)).
Proof.
  induction 1 as [|name names Hs IH Hall]; [constructor|].
  simpl. destruct (qualify fs folder name) as [y|] eqn:Hq; [|exact IH].
  apply qualify_some in Hq as [-> _]. simpl. constructor; [exact IH|].
  apply List.Forall_forall. intros n Hn.
  rewrite <- list_elem_of_In in Hn. apply list_elem_of_fmap in Hn as (y & -> & Hy).
  apply list_elem_of_omap in Hy as (n & Hn & Hq).
  apply qualify_some in Hq as [-> _]. simpl.
  rewrite List.Forall_forall in Hall. apply Hall. rewrite <- list_elem_of_In. exact Hn.
Qed.

(** C9. [iter_images] yields its entries by sorted name, and yields
    exactly the listed names that do not start with a dot, are regular
    files, and have a lowercased extension in [IMAGE_EXTS]. *)
Theorem iter_images_correct (fs : gmap str node) (folder : str) :
  StronglySorted str_le (map (fun y => y.1.1) (iter_images listdir fs folder)) /\
  (forall name path ext,
     (name, path, ext) ∈ iter_images listdir fs folder <->
     name ∈ listdir folder /\
     startswith (lit ".") name = false /\
     path = path_join folder name /\
     isfile fs path = true /\
     ext = lower (splitext name).2 /\
     ext ∈ IMAGE_EXTS).
Proof.
  split.
  - apply omap_qualify_sorted, OrderFacts.sorted_sorted.
  - intros name path ext. unfold iter_images. rewrite list_elem_of_omap. split.
    + intros (n & Hn & Hq). apply qualify_some in Hq as ([= -> -> ->] & Hdot & Hfile & Hext).
      rewrite OrderFacts.elem_of_sorted in Hn. repeat split; try assumption; reflexivity.
    + intros (Hn & Hdot & -> & Hfile & -> & Hext). exists name.
      split; [apply OrderFacts.elem_of_sorted, Hn|]. apply qualify_some.
      repeat split; try assumption; reflexivity.
Qed.

End IterImages.

(** * The loop of the caption renamer *)
Section MainLoop.
Import Py CaptionRenamer.

Variable guess_type : str -> option str.
Variable b64encode : str -> str.
Variable abspath : str -> str.
Variable listdir : str -> list str.
Variable getenv : str -> option str.
Variable create : nat -> str -> str -> nat -> api_result.

Local Abbreviation build_data_url := (build_data_url guess_type b64encode).
Local Abbreviation handle := (handle guess_type b64encode abspath create).
Local Abbreviation process := (process guess_type b64encode abspath create).
Local Abbreviation main := (main guess_type b64encode abspath listdir getenv create).

Lemma process_cons a name rest st :
  process a (name :: rest) st =
    match qualify (st_fs st) (dir a) name with
    | None => process a rest st
    | Some (name, path, ext) =>
        match handle a name path ext st with
        | inl stop => stop
        | inr st' => process a rest st'
        end
    end.
Proof. reflexivity. Qed.

Lemma handle_stop a name path ext st o st' c :
  handle a name path ext st = inl (o, st') -> o <> Return c.
Proof.
  unfold handle. intros H Ho. subst o.
  repeat match type of H with
         | context [match ?x with _ => _ end] => destruct x; try discriminate
         end.
Qed.





(** Under [--dry-run] the body of the loop leaves the file system alone
    and never reports a rename as done. *)
Lemma handle_dry_run a name path ext st st' :
  dry_run a = true ->
  handle a name path ext st = inr st' ->
  st_fs st' = st_fs st /\
  exists line, st_log st' = line :: st_log st /\
    forall new, line <> Stdout (lit "REN: " ++ name ++ lit " -> " ++ new).
Proof.
  intros Hdry. unfold handle. rewrite Hdry.
  destruct (build_data_url (st_fs st) path); [|discriminate].
  destruct (caption_image _).
  { intros [= <-]. split; [reflexivity|]. eexists. split; [reflexivity|]. discriminate. }
  destruct (unique_path _ _ _ _ _); [|discriminate].
  case_bool_decide; intros [= <-]; (split; [reflexivity|]);
    eexists; (split; [reflexivity|]); discriminate.
Qed.

Lemma handle_stop_dry_run a name path ext st o st' :
  dry_run a = true ->
  handle a name path ext st = inl (o, st') -> st_fs st' = st_fs st.
Proof.
  intros Hdry. unfold handle. rewrite Hdry.
  destruct (build_data_url (st_fs st) path); [|intros [= _ <-]; reflexivity].
  destruct (caption_image _); [discriminate|].
  destruct (unique_path _ _ _ _ _); [|intros [= _ <-]; reflexivity].
  case_bool_decide; discriminate.
Qed.

Lemma process_dry_run a names st :
  dry_run a = true -> st_fs (process a names st).2 = st_fs st.
Proof.
  intros Hdry. revert st. induction names as [|name rest IH]; intros st; [reflexivity|].
  rewrite process_cons.
  destruct (qualify (st_fs st) (dir a) name) as [[[n p] e]|]; [|apply IH].
  destruct (handle a n p e st) as [[o st']|st'] eqn:Hh.
  - apply (handle_stop_dry_run _ _ _ _ _ _ _ Hdry Hh).
  - rewrite IH. apply (handle_dry_run _ _ _ _ _ _ Hdry Hh).
Qed.

(** C8. With [--dry-run], a run of [main] ends with the file system it
    started from, whatever the service answers, so that every file keeps
    its path; and the body of the loop, for every file, leaves the file
    system alone and prints no [REN:] line, a planned rename being
    printed as a [DRY:] line. *)
Theorem dry_run_never_mutates (a : args) (Hdry : dry_run a = true) :
  (forall fs, st_fs (main a fs).2 = fs) /\
  (forall names st, st_fs (process a names st).2 = st_fs st) /\
  (forall name path ext st st',
     handle a name path ext st = inr st' ->
     st_fs st' = st_fs st /\
     exists line, st_log st' = line :: st_log st /\
       forall new, line <> Stdout (lit "REN: " ++ name ++ lit " -> " ++ new)) /\
  (forall name path ext st data_url caption new_path,
     build_data_url (st_fs st) path = Some data_url ->
     caption_image (create (st_calls st) (model a) data_url (max_tokens a)) = inr caption ->
     unique_path (S (size (st_fs st))) (st_fs st) (dir a) (sanitize_caption caption) ext
       = Some new_path ->
     abspath new_path <> abspath path ->
     handle a name path ext st
       = inr (say (Stdout (lit "DRY: " ++ name ++ lit " -> " ++ Py.basename new_path))
                (called st))).
Proof.
  split; [|split; [|split]].
  - intros fs. unfold main.
    destruct (getenv (env_var a)) as [[|? ?]|]; try reflexivity.
    destruct (isdir fs (dir a)); simpl; [|reflexivity].
    rewrite process_dry_run by exact Hdry. reflexivity.
  - intros names st. apply process_dry_run, Hdry.
  - intros name path ext st st'. apply handle_dry_run, Hdry.
  - intros name path ext st data_url caption new_path Hurl Hcap Hu Hne.
    unfold handle. rewrite Hurl, Hcap. simpl. rewrite Hu.
    rewrite bool_decide_eq_false_2 by exact Hne. rewrite Hdry. reflexivity.
Qed.

End MainLoop.

Section SkipBranch.
Import Py CaptionRenamer.

Variable guess_type : str -> option str.
Variable b64encode : str -> str.
Variable abspath : str -> str.
Variable create : nat -> str -> str -> nat -> api_result.

Local Abbreviation build_data_url := (build_data_url guess_type b64encode).
Local Abbreviation handle := (handle guess_type b64encode abspath create).

Lemma unique_path_fresh fuel fs directory base ext p :
  unique_path fuel fs directory base ext = Some p -> path_exists fs p = false.
Proof.
  unfold unique_path.
  destruct (path_exists fs (path_join directory (base ++ ext))) eqn:He; simpl.
  - intros Hp. apply UniquePath.probe_some in Hp as (k & _ & _ & Hfree & _). exact Hfree.
  - intros [= <-]. exact He.
Qed.


End SkipBranch.

(** * The tag applier: titles *)
Module TitleFacts.
Import Py PyFacts TagApplier.

Lemma rfind_none c s : c ∉ s -> rfind c s = None.
Proof.
  induction s as [|x t IH]; [reflexivity|].
  intros Hnot. apply not_elem_of_cons in Hnot as [Hne Ht].
  simpl. rewrite (IH Ht). rewrite bool_decide_eq_false_2 by congruence. reflexivity.
Qed.

Lemma rfind_last c b e : c ∉ e -> rfind c (b ++ c :: e) = Some (length b).
Proof.
  intros He. induction b as [|x b IH]; simpl.
  - rewrite (rfind_none _ _ He). rewrite bool_decide_eq_true_2 by reflexivity. reflexivity.
  - rewrite IH. reflexivity.
Qed.

Lemma rsplit1_head_ext c b e : c ∉ e -> rsplit1_head c (b ++ c :: e) = b.
Proof.
  intros He. unfold rsplit1_head. rewrite (rfind_last _ _ _ He).
  apply take_app_length.
Qed.

Lemma rsplit1_head_plain c s : c ∉ s -> rsplit1_head c s = s.
Proof. intros Hs. unfold rsplit1_head. rewrite (rfind_none _ _ Hs). reflexivity. Qed.

(** Splitting at white space after turning underscores into blanks is
    splitting at both. *)
Lemma scan_replace_us s :
  scan is_space (replace_char "_"%char " "%char s) = scan Spec.word_sep s.
Proof.
  induction s as [|c t IH]; [reflexivity|].
  unfold replace_char in *. rewrite map_cons, !scan_cons, IH.
  unfold Spec.word_sep. case_bool_decide as Hc.
  - subst c. reflexivity.
  - rewrite orb_false_r. reflexivity.
Qed.

Lemma title_from_name_base name :
  title_from_name name = Spec.title_of_base (rsplit1_head "."%char name).
Proof.
  unfold title_from_name, Spec.title_of_base, split.
  rewrite !fields_eq, scan_replace_us. reflexivity.
Qed.

End TitleFacts.

(** C7. [title_from_name] is a function of the name alone: for a name
    [base.ext] whose extension holds no further dot, and for a name
    without a dot, the title is made of the words of the base, which
    underscores (and white space) separate, each capitalized and joined
    by single blanks; ["sunset_beach.jpg"] gives ["Sunset Beach"]. *)
Theorem title_from_name_correct :
  (forall base ext, "."%char ∉ ext ->
     TagApplier.title_from_name (base ++ lit "." ++ ext) = Spec.title_of_base base) /\
  (forall name, "."%char ∉ name ->
     TagApplier.title_from_name name = Spec.title_of_base name) /\
  TagApplier.title_from_name (lit "sunset_beach.jpg") = lit "Sunset Beach".
Proof.
  split; [|split].
  - intros base ext Hext. rewrite TitleFacts.title_from_name_base.
    change (lit "." ++ ext) with ("."%char :: ext).
    rewrite (TitleFacts.rsplit1_head_ext _ _ _ Hext). reflexivity.
  - intros name Hname. rewrite TitleFacts.title_from_name_base.
    rewrite (TitleFacts.rsplit1_head_plain _ _ Hname). reflexivity.
  - vm_compute. reflexivity.
Qed.

Lemma title_from_name_correct_witness :
  TagApplier.title_from_name (lit "rice_terrace" ++ lit "." ++ lit "png")
    = Spec.title_of_base (lit "rice_terrace").
Proof.
  apply (proj1 title_from_name_correct (lit "rice_terrace") (lit "png")).
  vm_compute. intros H. repeat (apply elem_of_cons in H as [H|H]; [discriminate|]).
  inversion H.
Defined.

(** * The tag applier: the validation gate *)
Module GateFacts.
Import Py TagApplier.

(** What the loading loop retains of complete records. *)
Lemma load_rows_complete rs :
  Forall Spec.complete rs ->
  exists rows, load_rows rs = inr rows /\
    forall name tag, (name, tag) ∈ rows <->
      exists r f t, r ∈ rs /\ row_filename r = Some f /\ row_tag r = Some t /\
                    strip f = name /\ name <> [] /\ strip t = tag.
Proof.
  induction 1 as [|r rs [[f Hf] [t Ht]] _ (rows & Hrows & Hin)].
  - exists []. split; [reflexivity|]. intros name tag. split.
    + intros H. inversion H.
    + intros (r & f & t & H & _). inversion H.
  - simpl. rewrite Hf, Ht, Hrows.
    destruct (strip f) as [|c cs] eqn:Hname.
    + exists rows. split; [reflexivity|]. intros name tag. rewrite Hin. split.
      * intros (r' & f' & t' & Hr' & Hrest). exists r', f', t'.
        split; [right; exact Hr' | exact Hrest].
      * intros (r' & f' & t' & Hr' & Hf' & Ht' & Hn & Hne & Htag).
        apply elem_of_cons in Hr' as [->|Hr'].
        -- exfalso. rewrite Hf in Hf'. injection Hf' as <-. congruence.
        -- exists r', f', t'. repeat split; assumption.
    + exists ((c :: cs, strip t) :: rows). split; [reflexivity|].
      intros name tag. rewrite elem_of_cons, Hin. split.
      * intros [[= -> ->] | (r' & f' & t' & Hr' & Hrest)].
        -- exists r, f, t. repeat split; try assumption; [left | discriminate].
        -- exists r', f', t'. split; [right; exact Hr' | exact Hrest].
      * intros (r' & f' & t' & Hr' & Hf' & Ht' & Hn & Hne & Htag).
        apply elem_of_cons in Hr' as [->|Hr'].
        -- left. rewrite Hf in Hf'. rewrite Ht in Ht'.
           injection Hf' as <-. injection Ht' as <-. congruence.
        -- right. exists r', f', t'. repeat split; assumption.
Qed.

Lemma elem_of_missing_tags name rows :
  name ∈ missing_tags rows <-> (name, []) ∈ rows.
Proof.
  unfold missing_tags. rewrite list_elem_of_fmap. split.
  - intros ([n t] & -> & Hin). apply list_elem_of_filter in Hin as [Ht Hin].
    simpl in *. subst t. exact Hin.
  - intros Hin. exists (name, []). split; [reflexivity|].
    apply list_elem_of_filter. split; [reflexivity | exact Hin].
Qed.

(** The loading loop raises on a record that lacks a field. *)
Lemma load_rows_inr rs rows : load_rows rs = inr rows -> Forall Spec.complete rs.
Proof.
  revert rows. induction rs as [|r rs IH]; intros rows; [constructor|].
  simpl. destruct (row_filename r) as [f|] eqn:Hf; [|discriminate].
  destruct (row_tag r) as [t|] eqn:Ht; [|discriminate].
  destruct (load_rows rs) as [exc|rows'] eqn:Hrs; [discriminate|].
  intros _. constructor; [|apply (IH _ eq_refl)].
  split; [rewrite Hf | rewrite Ht]; eauto.
Qed.

(** Every retained record without a tag is among the missing tags. *)
Lemma untagged_missing rs rows :
  load_rows rs = inr rows ->
  forall r name, r ∈ rs -> Spec.untagged r name -> name ∈ missing_tags rows.
Proof.
  intros Hrows r name Hr (fn & t & Hfn & Ht & Hn & Hne & He).
  destruct (load_rows_complete _ (load_rows_inr _ _ Hrows)) as (rows' & Hrows' & Hin).
  rewrite Hrows in Hrows'. injection Hrows' as <-.
  apply elem_of_missing_tags, Hin. exists r, fn, t. repeat split; assumption.
Qed.

(** With such a record, the gate finds rows and missing tags. *)
Lemma gate_closed rs rows :
  load_rows rs = inr rows ->
  (exists r name, r ∈ rs /\ Spec.untagged r name) ->
  exists row rows' m ms, rows = row :: rows' /\ missing_tags (row :: rows') = m :: ms.
Proof.
  intros Hrows (r & name & Hr & Hu).
  pose proof (untagged_missing _ _ Hrows _ _ Hr Hu) as Hm.
  destruct rows as [|row rows'].
  { apply elem_of_missing_tags in Hm. inversion Hm. }
  destruct (missing_tags (row :: rows')) as [|m ms] eqn:Hms; [inversion Hm|].
  exists row, rows', m, ms. split; [reflexivity | exact Hms].
Qed.

(** Whatever stops the script before the end leaves [gallery.html] alone. *)
Lemma run_writes_only_on_completion csv html :
  res_exit (run csv html) <> Completed -> res_html (run csv html) = html.
Proof.
  unfold run. intros H.
  repeat match goal with
         | |- context [match ?x with _ => _ end] => destruct x; try reflexivity
         end.
  simpl in H. congruence.
Qed.

End GateFacts.

(** C3, the claim refuted: in a CSV file with both headers whose first
    record is retained with an empty tag and whose second record is
    short, the run ends at the second record with [AttributeError],
    before the gate, and the name of the first record is not reported. *)
Lemma short_row_not_reported :
  ~ ((exists r name, r ∈ TagApplier.records Fixtures.short_row_csv /\ Spec.untagged r name) ->
     TagApplier.res_html
       (TagApplier.run (Some Fixtures.short_row_csv) (Some Fixtures.gallery))
       = Some Fixtures.gallery /\
     forall r name, r ∈ TagApplier.records Fixtures.short_row_csv -> Spec.untagged r name ->
       (lit " - " ++ name)
         ∈ TagApplier.res_stdout
             (TagApplier.run (Some Fixtures.short_row_csv) (Some Fixtures.gallery))).
Proof.
  assert (Hfirst : Spec.untagged
            {| TagApplier.row_filename := Some (lit "a.jpg"); TagApplier.row_tag := Some [] |}
            (lit "a.jpg")).
  { exists (lit "a.jpg"), []. repeat split; (reflexivity || discriminate). }
  intros Hclaim. destruct Hclaim as [_ Hreport].
  - eexists _, (lit "a.jpg"). split; [left | exact Hfirst].
  - specialize (Hreport _ _ ltac:(left) Hfirst).
    assert (TagApplier.res_stdout
              (TagApplier.run (Some Fixtures.short_row_csv) (Some Fixtures.gallery)) = [])
      as Hnothing by (vm_compute; reflexivity).
    rewrite Hnothing in Hreport. exact (not_elem_of_nil _ Hreport).
Qed.

(** C3, amended. Whenever some record of the CSV file is retained (its
    file name is not empty after trimming) with a tag that is empty
    after trimming, the run does not complete and [gallery.html] is as
    it was. If moreover the file has both headers and every record has
    both fields, the run stops with [Please fill all tags before
    applying.] and the name of every such record is printed, not only
    the first. *)
Theorem missing_tags_abort (f : TagApplier.csv_file) (html : option str)
    (Huntagged : exists r name, r ∈ TagApplier.records f /\ Spec.untagged r name) :
  TagApplier.res_html (TagApplier.run (Some f) html) = html /\
  TagApplier.res_exit (TagApplier.run (Some f) html) <> TagApplier.Completed /\
  forall names,
    TagApplier.fieldnames f = Some names ->
    lit "filename" ∈ names ->
    lit "tag" ∈ names ->
    Forall Spec.complete (TagApplier.records f) ->
    TagApplier.res_exit (TagApplier.run (Some f) html)
      = TagApplier.SystemExit (lit "Please fill all tags before applying.") /\
    forall r name, r ∈ TagApplier.records f -> Spec.untagged r name ->
      (lit " - " ++ name) ∈ TagApplier.res_stdout (TagApplier.run (Some f) html).
Proof.
  assert (Hstop : TagApplier.res_exit (TagApplier.run (Some f) html) <> TagApplier.Completed).
  { unfold TagApplier.run.
    destruct (TagApplier.fieldnames f) as [names|]; [|discriminate].
    destruct (negb _ || negb _); [discriminate|].
    destruct (TagApplier.load_rows (TagApplier.records f)) as [exc|rows] eqn:Hrows;
      [discriminate|].
    destruct (GateFacts.gate_closed _ _ Hrows Huntagged) as (row & rows' & m & ms & -> & Hms).
    rewrite Hms. discriminate. }
  split; [apply GateFacts.run_writes_only_on_completion, Hstop|].
  split; [exact Hstop|].
  intros names Hheader Hfilename Htag Hcomplete.
  destruct (GateFacts.load_rows_complete _ Hcomplete) as (rows & Hrows & Hin).
  destruct (GateFacts.gate_closed _ _ Hrows Huntagged) as (row & rows' & m & ms & -> & Hms).
  unfold TagApplier.run. rewrite Hheader.
  rewrite !bool_decide_eq_true_2 by assumption. cbn [negb orb]. rewrite Hrows, Hms.
  cbn [TagApplier.stop TagApplier.res_exit TagApplier.res_html TagApplier.res_stdout].
  split; [reflexivity|].
  intros r name Hr Hu. apply elem_of_cons. right.
  apply (list_elem_of_fmap_2 (fun n => lit " - " ++ n) (m :: ms) name).
  rewrite <- Hms. exact (GateFacts.untagged_missing _ _ Hrows _ _ Hr Hu).
Qed.

(** * The tag applier: search and splice *)
Module PatternFacts.
Import Py TagApplier Aux.

Lemma expect_spec l s r : expect l s = Some r <-> s = l ++ r.
Proof.
  revert s. induction l as [|a l IH]; intros s; simpl.
  - split; congruence.
  - destruct s as [|b s]; [split; discriminate|].
    case_bool_decide as Hab.
    + subst b. rewrite IH. split; congruence.
    + split; [discriminate | congruence].
Qed.

Lemma expect_app l r : expect l (l ++ r) = Some r.
Proof. apply expect_spec. reflexivity. Qed.

Lemma startswith_spec l s : startswith l s = true <-> exists r, s = l ++ r.
Proof.
  revert s. induction l as [|a l IH]; intros s; simpl.
  - split; eauto.
  - destruct s as [|b s].
    + split; [discriminate | intros [r Hr]; discriminate].
    + rewrite andb_true_iff, bool_decide_eq_true, IH. split.
      * intros [-> [r ->]]. eauto.
      * intros [r [= -> ->]]. eauto.
Qed.

Lemma lstrip_split p s :
  exists ws, Forall (fun c => p c = true) ws /\ s = ws ++ lstrip p s.
Proof.
  induction s as [|c t (ws & Hws & Ht)]; [exists []; split; [constructor | reflexivity]|].
  simpl. destruct (p c) eqn:Hc.
  - exists (c :: ws). split; [constructor; assumption | simpl; congruence].
  - exists []. split; [constructor | reflexivity].
Qed.

Lemma lstrip_app_stop p ws c t :
  Forall (fun c => p c = true) ws -> p c = false -> lstrip p (ws ++ c :: t) = c :: t.
Proof.
  intros Hws Hc. induction Hws as [|x ws Hx _ IH]; simpl.
  - rewrite Hc. reflexivity.
  - rewrite Hx. exact IH.
Qed.


Lemma lstrip_app_lit p ws c l t :
  Forall (fun c => p c = true) ws -> p c = false ->
  lstrip p (ws ++ (c :: l) ++ t) = (c :: l) ++ t.
Proof. intros Hws Hc. rewrite <- app_comm_cons. apply lstrip_app_stop; assumption. Qed.

Lemma closer_at_spec s rest :
  closer_at s = Some rest <-> exists g3, Spec.closing g3 /\ s = g3 ++ rest.
Proof.
  unfold closer_at. split.
  - intros H.
    destruct (expect nl s) as [s1|] eqn:H1; cbn [mbind option_bind] in H; [|discriminate].
    destruct (expect (lit "</div>") (lstrip is_space s1)) as [s2|] eqn:H2;
      cbn [mbind option_bind] in H; [|discriminate].
    destruct (expect nl s2) as [s3|] eqn:H3; cbn [mbind option_bind] in H; [|discriminate].
    apply expect_spec in H1, H2, H3, H.
    destruct (lstrip_split is_space s1) as (ws1 & Hws1 & Hs1).
    destruct (lstrip_split is_space s3) as (ws2 & Hws2 & Hs3).
    exists (nl ++ ws1 ++ lit "</div>" ++ nl ++ ws2 ++ lit "</main>").
    split; [exists ws1, ws2; auto|].
    rewrite H1, Hs1, H2, H3, Hs3, H. rewrite <- !app_assoc. reflexivity.
  - intros (g3 & (ws1 & ws2 & Hws1 & Hws2 & ->) & ->).
    rewrite <- !app_assoc.
    rewrite expect_app. cbn [mbind option_bind].
    rewrite (lstrip_app_lit is_space ws1 "<"%char (lit "/div>") _ Hws1 eq_refl).
    rewrite (expect_app ("<"%char :: lit "/div>")). cbn [mbind option_bind].
    rewrite expect_app. cbn [mbind option_bind].
    rewrite (lstrip_app_lit is_space ws2 "<"%char (lit "/main>") _ Hws2 eq_refl).
    apply (expect_app ("<"%char :: lit "/main>")).
Qed.

Lemma closer_at_length s rest : closer_at s = Some rest -> length rest < length s.
Proof.
  intros H. apply closer_at_spec in H as (g3 & (ws1 & ws2 & _ & _ & ->) & ->).
  rewrite !length_app. simpl. lia.
Qed.

(** The lazy group: the first offset at which the closing sequence
    matches. *)
Lemma lazy_body_some t n2 n3 :
  lazy_body t = Some (n2, n3) ->
  n2 + n3 <= length t /\ 0 < n3 /\
  closer_at (drop n2 t) = Some (drop (n2 + n3) t) /\
  forall k, k < n2 -> closer_at (drop k t) = None.
Proof.
  revert n2 n3. induction t as [|c t IH]; intros n2 n3.
  - intros H. vm_compute in H. discriminate.
  - cbn [lazy_body]. destruct (closer_at (c :: t)) as [rest|] eqn:Hc.
    + intros [= <- <-]. pose proof (closer_at_length _ _ Hc) as Hlen.
      apply closer_at_spec in Hc as (g3 & Hg3 & Heq).
      assert (length (c :: t) = length g3 + length rest) as Hl
        by (rewrite Heq, length_app; reflexivity).
      cbn [length] in *.
      split; [lia|]. split; [lia|]. split; [|intros k Hk; lia].
      rewrite drop_0. apply closer_at_spec. exists g3. split; [exact Hg3|].
      rewrite Heq at 1. f_equal.
      replace (0 + (S (length t) - length rest)) with (length g3) by lia.
      rewrite Heq, drop_app_length. reflexivity.
    + destruct (lazy_body t) as [[m2 m3]|] eqn:Ht; [|discriminate].
      intros [= <- <-]. destruct (IH _ _ eq_refl) as (Hle & Hpos & Hat & Hmin).
      split; [simpl; lia|]. split; [exact Hpos|]. split; [exact Hat|].
      intros [|k] Hk; [exact Hc|]. apply Hmin. lia.
Qed.

Lemma lazy_body_least t j rest :
  closer_at (drop j t) = Some rest ->
  exists n2 n3, lazy_body t = Some (n2, n3) /\ n2 <= j.
Proof.
  revert j. induction t as [|c t IH]; intros j Hj.
  - rewrite drop_nil in Hj. apply closer_at_length in Hj. simpl in Hj. lia.
  - cbn [lazy_body]. destruct (closer_at (c :: t)) as [r|] eqn:Hc.
    + eexists _, _. split; [reflexivity | lia].
    + destruct j as [|j]; [rewrite drop_0 in Hj; congruence|].
      destruct (IH j Hj) as (n2 & n3 & -> & Hle).
      eexists _, _. split; [reflexivity | lia].
Qed.

Lemma lazy_body_none t : lazy_body t = None -> forall j, closer_at (drop j t) = None.
Proof.
  intros Hnone j. destruct (closer_at (drop j t)) as [rest|] eqn:Hj; [|reflexivity].
  destruct (lazy_body_least _ _ _ Hj) as (n2 & n3 & H & _). congruence.
Qed.


Lemma match_at_some s n2 n3 :
  match_at s = Some (n2, n3) <->
  (exists t, s = opener ++ t /\ lazy_body t = Some (n2, n3)).
Proof.
  unfold match_at. destruct (startswith opener s) eqn:Hs.
  - apply startswith_spec in Hs as [t ->]. rewrite drop_app_length. split.
    + intros H. exists t. auto.
    + intros (t' & Heq & H). apply app_inv_head in Heq. subst t'. exact H.
  - split; [discriminate|]. intros (t & -> & _).
    assert (startswith opener (opener ++ t) = true) by (apply startswith_spec; eauto).
    congruence.
Qed.

(** The matcher agrees with the language of the pattern. *)
Lemma match_at_anchor s :
  is_Some (match_at s) <->
  exists g2 g3 post, Spec.closing g3 /\ s = opener ++ g2 ++ g3 ++ post.
Proof.
  split.
  - intros [[n2 n3] H]. apply match_at_some in H as (t & -> & Ht).
    apply lazy_body_some in Ht as (_ & _ & Hat & _).
    apply closer_at_spec in Hat as (g3 & Hg3 & Heq).
    exists (take n2 t), g3, (drop (n2 + n3) t). split; [exact Hg3|].
    rewrite <- Heq, take_drop. reflexivity.
  - intros (g2 & g3 & post & Hg3 & ->).
    destruct (lazy_body_least (g2 ++ g3 ++ post) (length g2) post) as (n2 & n3 & H & _).
    { rewrite drop_app_length. apply closer_at_spec. eauto. }
    exists (n2, n3). apply match_at_some. eauto.
Qed.

Lemma search_from_found i s k n2 n3 :
  (forall k', k' < k -> match_at (drop k' s) = None) ->
  match_at (drop k s) = Some (n2, n3) ->
  search_from i s = Some (found i s k n2 n3).
Proof.
  revert i s. induction k as [|k IH]; intros i s Hmin Hk.
  - rewrite drop_0 in Hk. destruct s; cbn [search_from]; rewrite Hk;
      unfold found; rewrite ?drop_0, !Nat.add_0_r; reflexivity.
  - pose proof (Hmin 0 ltac:(lia)) as H0. rewrite drop_0 in H0.
    destruct s as [|c s].
    { rewrite drop_nil in Hk. congruence. }
    cbn [search_from]. rewrite H0.
    rewrite (IH (S i) s).
    + unfold found. cbn [drop]. f_equal. f_equal; lia.
    + intros k' Hk'. apply (Hmin (S k')). lia.
    + exact Hk.
Qed.

Lemma search_from_some i s m :
  search_from i s = Some m ->
  exists k n2 n3,
    (forall k', k' < k -> match_at (drop k' s) = None) /\
    match_at (drop k s) = Some (n2, n3) /\
    m = found i s k n2 n3.
Proof.
  revert i. induction s as [|c s IH]; intros i.
  - cbn [search_from]. destruct (match_at []) as [[n2 n3]|] eqn:H0; [|discriminate].
    vm_compute in H0. discriminate.
  - cbn [search_from]. destruct (match_at (c :: s)) as [[n2 n3]|] eqn:H0.
    + intros [= <-]. exists 0, n2, n3. split; [intros k' Hk'; lia|].
      split; [exact H0|]. unfold found. rewrite ?drop_0, !Nat.add_0_r. reflexivity.
    + intros H. destruct (IH _ H) as (k & n2 & n3 & Hmin & Hk & ->).
      exists (S k), n2, n3. split.
      * intros [|k'] Hk'; [exact H0|]. apply Hmin. lia.
      * split; [exact Hk|]. unfold found. cbn [drop]. f_equal; lia.
Qed.

Lemma search_from_none i s :
  search_from i s = None <-> forall k, match_at (drop k s) = None.
Proof.
  split.
  - revert i. induction s as [|c s IH]; intros i; cbn [search_from].
    + intros _ k. rewrite drop_nil. reflexivity.
    + destruct (match_at (c :: s)) as [[n2 n3]|] eqn:H0; [discriminate|].
      intros H [|k]; [exact H0|]. apply (IH _ H).
  - intros Hall. destruct (search_from i s) as [m|] eqn:H; [|reflexivity].
    apply search_from_some in H as (k & n2 & n3 & _ & Hk & _).
    rewrite Hall in Hk. discriminate.
Qed.

(** [search] fails exactly on the texts that hold no match. *)
Lemma search_none_iff_no_anchor html :
  search html = None <-> forall i, ~ Spec.anchor_at html i.
Proof.
  unfold search. rewrite search_from_none. unfold Spec.anchor_at. split.
  - intros Hall i Hi. apply match_at_anchor in Hi as [x Hx]. rewrite Hall in Hx. discriminate.
  - intros Hno k. destruct (match_at (drop k html)) eqn:Hk; [|reflexivity].
    exfalso. apply (Hno k), match_at_anchor. eauto.
Qed.


(** What a successful splice has found and what it writes. *)
Lemma splice_some c html h1 :
  splice c html = Some h1 ->
  exists pre t n2 n3,
    html = pre ++ opener ++ t /\
    (forall k, k < length pre -> match_at (drop k html) = None) /\
    lazy_body t = Some (n2, n3) /\
    h1 = pre ++ opener ++ nl ++ c ++ take n3 (drop n2 t) ++ drop (n2 + n3) t.
Proof.
  unfold splice, search. destruct (search_from 0 html) as [m|] eqn:Hs; [|discriminate].
  intros [= <-]. apply search_from_some in Hs as (k & n2 & n3 & Hmin & Hk & ->).
  apply match_at_some in Hk as (t & Hdrop & Ht).
  assert (k <= length html) as Hklen.
  { destruct (decide (k <= length html)) as [|Hgt]; [assumption|].
    rewrite drop_ge in Hdrop by lia. destruct opener eqn:Ho; discriminate. }
  assert (html = take k html ++ opener ++ t) as Hhtml.
  { rewrite <- Hdrop, take_drop. reflexivity. }
  exists (take k html), t, n2, n3.
  rewrite length_take_le by exact Hklen.
  split; [exact Hhtml|]. split; [exact Hmin|]. split; [exact Ht|].
  unfold found. cbn [m_start m_end group1 group3]. rewrite Nat.add_0_l.
  rewrite Hdrop, take_app_length, drop_app_add.
  replace (k + length opener + n2 + n3) with (k + (length opener + (n2 + n3))) by lia.
  rewrite <- drop_drop, Hdrop, drop_app_add.
  repeat (rewrite <- app_assoc || rewrite <- app_comm_cons). reflexivity.
Qed.

Lemma splice_at c pre t n2 n3 :
  (forall k, k < length pre -> match_at (drop k (pre ++ opener ++ t)) = None) ->
  lazy_body t = Some (n2, n3) ->
  splice c (pre ++ opener ++ t)
    = Some (pre ++ opener ++ nl ++ c ++ take n3 (drop n2 t) ++ drop (n2 + n3) t).
Proof.
  intros Hmin Ht. unfold splice, search.
  rewrite (search_from_found 0 _ (length pre) n2 n3).
  - unfold found. cbn [m_start m_end group1 group3]. rewrite Nat.add_0_l.
    rewrite take_app_length, !drop_app_length, take_app_length, drop_app_add.
    replace (length pre + length opener + n2 + n3)
      with (length pre + (length opener + (n2 + n3))) by lia.
    rewrite !drop_app_add.
    repeat (rewrite <- app_assoc || rewrite <- app_comm_cons). reflexivity.
  - exact Hmin.
  - rewrite drop_app_length. apply match_at_some. eauto.
Qed.

(** The opening tag cannot start before the match: it would have been
    the match. *)
Lemma no_earlier_opener pre t t' n2 n3 k :
  (forall k, k < length pre -> match_at (drop k (pre ++ opener ++ t)) = None) ->
  lazy_body t = Some (n2, n3) ->
  k < length pre ->
  match_at (drop k (pre ++ opener ++ t')) = None.
Proof.
  intros Hmin Ht Hk.
  destruct (match_at (drop k (pre ++ opener ++ t'))) as [[m2 m3]|] eqn:Hm; [|reflexivity].
  exfalso. apply match_at_some in Hm as (t1 & Heq & _).
  rewrite drop_app_le in Heq by lia.
  set (d := drop k pre) in *.
  assert (take (length opener) (d ++ opener) = opener) as Htake.
  { transitivity (take (length opener) (d ++ opener ++ t')).
    - rewrite (app_assoc d opener t'). symmetry. apply take_app_le.
      rewrite length_app. lia.
    - rewrite Heq. apply take_app_length. }
  assert (is_Some (match_at (drop k (pre ++ opener ++ t)))) as [x Hx].
  { apply match_at_anchor.
    apply lazy_body_some in Ht as (_ & _ & Hat & _).
    apply closer_at_spec in Hat as (g3 & Hg3 & Hg).
    rewrite drop_app_le by lia. fold d.
    exists (drop (length opener) (d ++ opener) ++ take n2 t), g3, (drop (n2 + n3) t).
    split; [exact Hg3|].
    assert (d ++ opener = opener ++ drop (length opener) (d ++ opener)) as Hsplit.
    { rewrite <- (take_drop (length opener) (d ++ opener)) at 1. rewrite Htake. reflexivity. }
    rewrite (app_assoc d), Hsplit, <- !app_assoc. do 2 f_equal.
    rewrite <- Hg, take_drop. reflexivity. }
  rewrite Hmin in Hx by exact Hk. discriminate.
Qed.

(** Run on its own output, the splice finds a closing sequence one line
    feed earlier at the latest, keeps that line feed, and writes one
    more of its own. *)
Lemma splice_twice_longer c html h1 :
  splice (c ++ nl) html = Some h1 ->
  exists h2, splice (c ++ nl) h1 = Some h2 /\ length h1 < length h2.
Proof.
  intros H. apply splice_some in H as (pre & t & n2 & n3 & -> & Hmin & Ht & ->).
  pose proof (lazy_body_some _ _ _ Ht) as (Hle & Hpos & Hat & _).
  set (g3 := take n3 (drop n2 t)) in *. set (post := drop (n2 + n3) t) in *.
  assert (Hg : closer_at (g3 ++ post) = Some post).
  { unfold g3, post in *. rewrite <- drop_drop, take_drop. rewrite <- drop_drop in Hat.
    exact Hat. }
  set (y1 := nl ++ (c ++ nl) ++ g3 ++ post).
  destruct (lazy_body_least y1 (length (nl ++ c)) post) as (m2 & m3 & Hy1 & Hm2).
  { unfold y1. rewrite <- (app_assoc c nl), (app_assoc nl c).
    rewrite drop_app_length.
    apply closer_at_spec in Hg as (g & (ws1 & ws2 & Hws1 & Hws2 & ->) & Hgeq).
    apply app_inv_tail in Hgeq. apply closer_at_spec.
    exists (nl ++ (nl ++ ws1) ++ lit "</div>" ++ nl ++ ws2 ++ lit "</main>").
    split.
    - exists (nl ++ ws1), ws2. split; [|split; [exact Hws2 | reflexivity]].
      constructor; [reflexivity | exact Hws1].
    - rewrite Hgeq, <- !app_assoc. reflexivity. }
  pose proof (lazy_body_some _ _ _ Hy1) as (Hle1 & _ & _ & _).
  eexists. split.
  - apply (splice_at (c ++ nl) pre y1 m2 m3); [|exact Hy1].
    intros k Hk. apply (no_earlier_opener pre t y1 n2 n3 k Hmin Ht Hk).
  - unfold y1 in *. clear Hy1.
    repeat first [rewrite length_app | rewrite length_take | rewrite length_drop].
    repeat rewrite length_app in Hle1. repeat rewrite length_app in Hm2.
    change (length nl) with 1 in *. lia.
Qed.


(** A completed run has passed the gate with some rows and spliced their
    cards; on any other page the same CSV file leads to the splice of
    the same cards. *)
Lemma run_completed csv html :
  res_exit (run csv (Some html)) = Completed ->
  exists rows h1,
    splice (cards_html rows) html = Some h1 /\
    res_html (run csv (Some html)) = Some h1 /\
    forall html' h', splice (cards_html rows) html' = Some h' ->
      res_exit (run csv (Some html')) = Completed /\
      res_html (run csv (Some html')) = Some h'.
Proof.
  unfold run.
  destruct csv as [f|]; [|discriminate].
  destruct (fieldnames f) as [names|]; [|discriminate].
  destruct (negb _ || negb _); [discriminate|].
  destruct (load_rows (records f)) as [exc|[|row rows]]; try discriminate.
  destruct (missing_tags (row :: rows)); [|discriminate].
  destruct (splice (cards_html (row :: rows)) html) as [h1|] eqn:Hs; [|discriminate].
  intros _. exists (row :: rows), h1. split; [exact Hs|]. split; [reflexivity|].
  intros html' h' Hs'. rewrite Hs'. split; reflexivity.
Qed.

End PatternFacts.

(** C1 (refuted by the code). A run that completes is never repeated
    without change: run again with the same CSV file on the page it has
    just written, the script completes again and writes a page that is
    strictly longer, hence different. The line feed that ends the cards
    is taken into the closing sequence by the next search, and each run
    adds one more. *)
Theorem rerun_grows (csv : option TagApplier.csv_file) (html : str)
    (Hrun : TagApplier.res_exit (TagApplier.run csv (Some html)) = TagApplier.Completed) :
  exists h1 h2,
    TagApplier.res_html (TagApplier.run csv (Some html)) = Some h1 /\
    TagApplier.res_exit (TagApplier.run csv (Some h1)) = TagApplier.Completed /\
    TagApplier.res_html (TagApplier.run csv (Some h1)) = Some h2 /\
    length h1 < length h2 /\ h2 <> h1.
Proof.
  destruct (PatternFacts.run_completed _ _ Hrun) as (rows & h1 & Hs & Hh1 & Hagain).
  unfold TagApplier.cards_html in Hs, Hagain.
  destruct (PatternFacts.splice_twice_longer _ _ _ Hs) as (h2 & Hs2 & Hlen).
  destruct (Hagain _ _ Hs2) as [He2 Hh2].
  exists h1, h2. repeat split; try assumption.
  intros ->. lia.
Qed.

Lemma rerun_grows_witness :
  exists h1 h2,
    TagApplier.res_html (TagApplier.run (Some Fixtures.tagged_csv) (Some Fixtures.gallery))
      = Some h1 /\
    TagApplier.res_exit (TagApplier.run (Some Fixtures.tagged_csv) (Some h1))
      = TagApplier.Completed /\
    TagApplier.res_html (TagApplier.run (Some Fixtures.tagged_csv) (Some h1)) = Some h2 /\
    length h1 < length h2 /\ h2 <> h1.
Proof.
  apply (rerun_grows (Some Fixtures.tagged_csv) Fixtures.gallery).
  vm_compute. reflexivity.
Defined.

(** On the page of [Fixtures.gallery] the first run writes 393
    characters and the second run 394. *)
Example rerun_gallery :
  option_map (@length ascii)
    (TagApplier.res_html (TagApplier.run (Some Fixtures.tagged_csv) (Some Fixtures.gallery)))
    = Some 393 /\
  option_map (@length ascii)
    (TagApplier.res_html
       (TagApplier.run (Some Fixtures.tagged_csv)
          (TagApplier.res_html
             (TagApplier.run (Some Fixtures.tagged_csv) (Some Fixtures.gallery)))))
    = Some 394.
Proof. split; vm_compute; reflexivity. Qed.

Module AnchorFacts.
Import Py TagApplier PatternFacts.

(** The first match: where it is and what the splice writes. *)
Lemma splice_first_match c html h1 :
  splice c html = Some h1 ->
  exists i g2 g3 post,
    (forall j, j < i -> ~ Spec.anchor_at html j) /\
    Spec.closing g3 /\
    drop i html = opener ++ g2 ++ g3 ++ post /\
    h1 = take i html ++ opener ++ nl ++ c ++ g3 ++ post.
Proof.
  intros H. apply splice_some in H as (pre & t & n2 & n3 & -> & Hmin & Ht & ->).
  apply lazy_body_some in Ht as (Hle & _ & Hat & _).
  apply closer_at_spec in Hat as (g3 & Hg3 & Hg).
  assert (length g3 = n3) as Hn3.
  { apply (f_equal (@length ascii)) in Hg.
    rewrite length_app, !length_drop in Hg. lia. }
  assert (take n3 (drop n2 t) = g3) as Htake.
  { rewrite Hg. apply take_app_length'. symmetry. exact Hn3. }
  exists (length pre), (take n2 t), g3, (drop (n2 + n3) t).
  split; [|split; [exact Hg3|split]].
  - intros j Hj Hanchor. unfold Spec.anchor_at in Hanchor.
    apply match_at_anchor in Hanchor as [x Hx]. rewrite Hmin in Hx by exact Hj.
    discriminate.
  - rewrite drop_app_length, <- Hg, take_drop. reflexivity.
  - rewrite take_app_length, Htake. reflexivity.
Qed.



End AnchorFacts.




(** * The theorems at concrete inputs *)
Section Witnesses.
Import Fixtures CaptionRenamer.

Lemma missing_tags_abort_witness :
  TagApplier.res_html (TagApplier.run (Some untagged_csv) (Some gallery)) = Some gallery /\
  TagApplier.res_exit (TagApplier.run (Some untagged_csv) (Some gallery))
    <> TagApplier.Completed /\
  forall names,
    TagApplier.fieldnames untagged_csv = Some names ->
    lit "filename" ∈ names ->
    lit "tag" ∈ names ->
    Forall Spec.complete (TagApplier.records untagged_csv) ->
    TagApplier.res_exit (TagApplier.run (Some untagged_csv) (Some gallery))
      = TagApplier.SystemExit (lit "Please fill all tags before applying.") /\
    forall r name, r ∈ TagApplier.records untagged_csv -> Spec.untagged r name ->
      (lit " - " ++ name)
        ∈ TagApplier.res_stdout (TagApplier.run (Some untagged_csv) (Some gallery)).
Proof.
  apply (missing_tags_abort untagged_csv (Some gallery)).
  eexists _, (lit "b.jpg"). split.
  - right. left.
  - exists (lit "b.jpg"), (lit "  "). repeat split; (reflexivity || discriminate).
Defined.


Lemma dry_run_never_mutates_witness :
  st_fs (main guess_jpeg b64_plain abspath_srv listdir_photos getenv_key steady_service
           (renamer_args true) one_photo).2 = one_photo.
Proof.
  apply (proj1 (dry_run_never_mutates guess_jpeg b64_plain abspath_srv listdir_photos
                  getenv_key steady_service (renamer_args true) eq_refl)).
Defined.


End Witnesses.

(** * Further properties of the two scripts *)

Module WordFacts.
Import Py PyFacts Extra.

Section Words.
Variable sep : ascii -> bool.

Lemma scan_words s :
  Forall (fun c => sep c = false) (scan sep s).1 /\ Forall (word sep) (scan sep s).2.
Proof.
  induction s as [|c t [IH1 IH2]]; [split; constructor|].
  rewrite scan_cons. destruct (sep c) eqn:Hc; simpl.
  - split; [constructor|]. destruct (scan sep t).1 eqn:E; simpl; [exact IH2|].
    constructor; [|exact IH2]. split; [discriminate | exact IH1].
  - split; [constructor; assumption | exact IH2].
Qed.

Lemma fields_words s : Forall (word sep) (fields sep s).
Proof.
  rewrite fields_eq. destruct (scan_words s) as [H1 H2].
  destruct (scan sep s).1 eqn:E; simpl; [exact H2|].
  constructor; [|exact H2]. split; [discriminate | exact H1].
Qed.

Lemma scan_app_word w t :
  Forall (fun c => sep c = false) w ->
  scan sep (w ++ t) = (w ++ (scan sep t).1, (scan sep t).2).
Proof.
  induction 1 as [|c w Hc _ IH]; simpl app.
  - destruct (scan sep t); reflexivity.
  - rewrite scan_cons, IH, Hc. reflexivity.
Qed.

(** Splitting what was joined gives the words back. *)
Lemma fields_join u ws :
  sep u = true -> Forall (word sep) ws -> fields sep (join [u] ws) = ws.
Proof.
  intros Hu. induction 1 as [|w ws [Hne Hw] Hws IH]; [reflexivity|].
  rewrite join_cons, fields_eq, (scan_app_word _ _ Hw).
  destruct ws as [|w' ws'].
  - simpl. rewrite app_nil_r. destruct w; [congruence | reflexivity].
  - change ([u] ++ join [u] (w' :: ws')) with (u :: join [u] (w' :: ws')).
    rewrite scan_cons, Hu, <- fields_eq, IH. simpl. rewrite app_nil_r.
    destruct w; [congruence | reflexivity].
Qed.

End Words.

(** The shape of words joined by a separator [u]. *)
Section Joined.
Variable sep : ascii -> bool.
Variable u : ascii.
Hypothesis sep_u : sep u = true.

Lemma word_head w : word sep w -> exists c t, w = c :: t /\ c <> u.
Proof.
  intros [Hne Hw]. destruct w as [|c t]; [congruence|]. exists c, t. split; [reflexivity|].
  inversion Hw; subst. congruence.
Qed.

Lemma join_head w ws :
  Forall (word sep) (w :: ws) -> exists c t, join [u] (w :: ws) = c :: t /\ c <> u.
Proof.
  intros H. inversion H as [|? ? Hw _]; subst.
  destruct (word_head _ Hw) as (c & t & -> & Hc).
  rewrite join_cons. simpl. eauto.
Qed.

Lemma join_chars (P : ascii -> Prop) ws :
  P u -> Forall (Forall P) ws -> Forall P (join [u] ws).
Proof.
  intros Hu. induction 1 as [|w ws Hw _ IH]; [constructor|].
  rewrite join_cons. apply Forall_app. split; [exact Hw|].
  destruct ws; [constructor|]. apply Forall_app. split; [repeat constructor; exact Hu | exact IH].
Qed.

Lemma join_last w ws :
  Forall (word sep) (w :: ws) -> last (join [u] (w :: ws)) <> Some u.
Proof.
  revert w. induction ws as [|w' ws IH]; intros w H; inversion H as [|? ? Hw Hws]; subst.
  - simpl. destruct Hw as [Hne Hw]. destruct w as [|c t] using rev_ind; [congruence|].
    rewrite last_snoc. apply Forall_app in Hw as [_ Hc]. inversion Hc; subst. congruence.
  - rewrite join_cons. rewrite last_app.
    change ([u] ++ join [u] (w' :: ws)) with (u :: join [u] (w' :: ws)).
    destruct (join_head _ _ Hws) as (c & t & Heq & _).
    rewrite last_cons. specialize (IH _ Hws). destruct (last (join [u] (w' :: ws))) eqn:E.
    + exact IH.
    + rewrite Heq in E. rewrite last_cons in E. destruct (last t); discriminate.
Qed.

Lemma join_no_double ws i :
  Forall (word sep) ws ->
  join [u] ws !! i = Some u -> join [u] ws !! S i <> Some u.
Proof.
  intros H. revert i. induction H as [|w ws Hw Hws IH]; intros i; [discriminate|].
  rewrite join_cons. destruct Hw as [_ Hw].
  revert i. induction Hw as [|c w Hc Hw IHw]; intros i.
  - simpl app. destruct ws as [|w' ws']; [discriminate|].
    change ([u] ++ join [u] (w' :: ws')) with (u :: join [u] (w' :: ws')).
    destruct i as [|i].
    + intros _. destruct (join_head _ _ Hws) as (c & t & Heq & Hc). rewrite Heq.
      simpl. congruence.
    + simpl. apply IH.
  - destruct i as [|i]; simpl.
    + intros [= ->]. congruence.
    + apply IHw.
Qed.

End Joined.
End WordFacts.

Module SanitizeShape.
Import Py PyFacts CaptionRenamer SanitizeFacts WordFacts Extra.

Lemma lower_char_idem c : lower_char (lower_char c) = lower_char c.
Proof. destruct c as [[] [] [] [] [] [] [] []]; reflexivity. Qed.

Lemma lower_upper_char c : lower_char (upper_char c) = lower_char c.
Proof. destruct c as [[] [] [] [] [] [] [] []]; reflexivity. Qed.

Lemma lower_char_name c : Extra.name_char c = true -> lower_char c = c.
Proof. destruct c as [[] [] [] [] [] [] [] []]; (reflexivity || discriminate). Qed.

Lemma alnum_name_char c : non_alnum c = false -> Extra.name_char c = true.
Proof.
  unfold non_alnum, Extra.name_char. intros H. apply negb_false_iff in H. rewrite H. reflexivity.
Qed.

Lemma base_words_ok text : Forall (word non_alnum) (base_words text).
Proof. apply fields_words. Qed.

Lemma sanitize_cases text :
  (base_words text = [] /\ sanitize_caption text = lit "image") \/
  (exists w ws, base_words text = w :: ws /\
                sanitize_caption text = join (lit "_") (w :: ws)).
Proof.
  rewrite sanitize_caption_fields. fold (base_words text).
  pose proof (base_words_ok text) as Hw.
  destruct (base_words text) as [|w ws] eqn:E; [left; split; reflexivity|].
  right. exists w, ws. split; [reflexivity|].
  destruct (join_head non_alnum "_"%char non_alnum_us w ws Hw) as (c & t & Heq & _).
  change (lit "_") with ["_"%char]. rewrite Heq. reflexivity.
Qed.

Lemma words_name_chars ws :
  Forall (word non_alnum) ws -> Forall (Forall (fun c => Extra.name_char c = true)) ws.
Proof.
  intros H. eapply Forall_impl; [exact H|]. intros w [_ Hw].
  eapply Forall_impl; [exact Hw|]. intros c. apply alnum_name_char.
Qed.

Lemma sanitize_name_chars text :
  Forall (fun c => Extra.name_char c = true) (sanitize_caption text).
Proof.
  destruct (sanitize_cases text) as [[_ ->] | (w & ws & E & ->)].
  - repeat constructor.
  - apply (join_chars "_"%char (fun c => Extra.name_char c = true)); [reflexivity|].
    apply words_name_chars. rewrite <- E. apply base_words_ok.
Qed.

Lemma lower_fixed s : Forall (fun c => Extra.name_char c = true) s -> lower s = s.
Proof.
  induction 1 as [|c s Hc _ IH]; [reflexivity|].
  unfold lower in *. simpl. rewrite IH, (lower_char_name _ Hc). reflexivity.
Qed.

End SanitizeShape.

(** X1. A sanitized base name is never empty, is made of lowercase
    letters, digits and underscores only, neither starts nor ends with
    an underscore, and has no two underscores in a row. *)
Theorem sanitize_caption_shape (text : str) :
  CaptionRenamer.sanitize_caption text <> [] /\
  Forall (fun c => Extra.name_char c = true) (CaptionRenamer.sanitize_caption text) /\
  head (CaptionRenamer.sanitize_caption text) <> Some "_"%char /\
  last (CaptionRenamer.sanitize_caption text) <> Some "_"%char /\
  forall i, CaptionRenamer.sanitize_caption text !! i = Some "_"%char ->
            CaptionRenamer.sanitize_caption text !! S i <> Some "_"%char.
Proof.
  split; [|split; [apply SanitizeShape.sanitize_name_chars|]].
  - destruct (SanitizeShape.sanitize_cases text) as [[_ ->] | (w & ws & E & ->)];
      [discriminate|].
    pose proof (SanitizeShape.base_words_ok text) as Hw. rewrite E in Hw.
    destruct (WordFacts.join_head _ "_"%char SanitizeFacts.non_alnum_us w ws Hw) as (c & t & Heq & _).
    change (lit "_") with ["_"%char]. rewrite Heq. discriminate.
  - destruct (SanitizeShape.sanitize_cases text) as [[_ ->] | (w & ws & E & ->)].
    + split; [discriminate|]. split; [discriminate|].
      intros i Hi. do 5 (destruct i as [|i]; [discriminate|]). destruct i; discriminate.
    + pose proof (SanitizeShape.base_words_ok text) as Hw. rewrite E in Hw.
      change (lit "_") with ["_"%char]. split; [|split].
      * destruct (WordFacts.join_head _ "_"%char SanitizeFacts.non_alnum_us w ws Hw)
          as (c & t & Heq & Hc).
        rewrite Heq. simpl. congruence.
      * apply (WordFacts.join_last _ "_"%char SanitizeFacts.non_alnum_us), Hw.
      * intros i. apply (WordFacts.join_no_double _ "_"%char SanitizeFacts.non_alnum_us), Hw.
Qed.

(** X2. Sanitizing is idempotent: a base name that is sanitized again
    stays as it is. *)
Theorem sanitize_caption_idempotent (text : str) :
  CaptionRenamer.sanitize_caption (CaptionRenamer.sanitize_caption text)
    = CaptionRenamer.sanitize_caption text.
Proof.
  rewrite (SanitizeFacts.sanitize_caption_fields (CaptionRenamer.sanitize_caption text)).
  rewrite (SanitizeShape.lower_fixed _ (SanitizeShape.sanitize_name_chars text)).
  destruct (SanitizeShape.sanitize_cases text) as [[_ ->] | (w & ws & E & ->)].
  - vm_compute. reflexivity.
  - pose proof (SanitizeShape.base_words_ok text) as Hw. rewrite E in Hw.
    change (lit "_") with ["_"%char].
    rewrite (WordFacts.fields_join _ "_"%char _ SanitizeFacts.non_alnum_us Hw).
    destruct (WordFacts.join_head _ "_"%char SanitizeFacts.non_alnum_us w ws Hw) as (c & t & Heq & _).
    rewrite Heq. reflexivity.
Qed.

(** X3. The base name depends neither on the white space around the
    caption nor on its case: the [strip()] that [caption_image] applies
    before [main] sanitizes changes nothing, nor does lowering the
    caption first; and for a caption of ASCII characters, nor does
    raising it to upper case. *)
Theorem sanitize_caption_insensitive (text : str) :
  CaptionRenamer.sanitize_caption (Py.strip text) = CaptionRenamer.sanitize_caption text /\
  CaptionRenamer.sanitize_caption (Py.lower text) = CaptionRenamer.sanitize_caption text /\
  (Extra.seven_bit text ->
   CaptionRenamer.sanitize_caption (Py.upper text) = CaptionRenamer.sanitize_caption text).
Proof.
  rewrite !SanitizeFacts.sanitize_caption_fields. split; [|split].
  - rewrite SanitizeFacts.lower_strip. unfold Py.strip.
    rewrite (PyFacts.fields_strip_by _ Py.is_space _ SanitizeFacts.is_space_non_alnum).
    reflexivity.
  - unfold Py.lower. rewrite map_map.
    rewrite (map_ext _ Py.lower_char SanitizeShape.lower_char_idem). reflexivity.
  - intros _. unfold Py.lower, Py.upper. rewrite map_map.
    rewrite (map_ext _ Py.lower_char SanitizeShape.lower_upper_char). reflexivity.
Qed.

Module StripFacts.
Import Py.

Lemma lstrip_head p s c : head (lstrip p s) = Some c -> p c = false.
Proof.
  induction s as [|x t IH]; [discriminate|]. simpl.
  destruct (p x) eqn:Hx; [exact IH|]. simpl. intros [= <-]. exact Hx.
Qed.

Lemma rstrip_head p s c : head (rstrip p s) = Some c -> head s = Some c.
Proof.
  destruct s as [|x t]; [discriminate|]. simpl.
  destruct (rstrip p t); [destruct (p x); [discriminate|]|]; simpl; congruence.
Qed.

Lemma rstrip_last p s c : last (rstrip p s) = Some c -> p c = false.
Proof.
  induction s as [|x t IH]; [discriminate|]. simpl.
  destruct (rstrip p t) as [|y r] eqn:Hr.
  - destruct (p x) eqn:Hx; [discriminate|]. simpl. intros [= <-]. exact Hx.
  - rewrite last_cons. destruct (last (y :: r)) eqn:Hl.
    + intros [= <-]. apply IH. reflexivity.
    + rewrite last_cons in Hl. destruct (last r); discriminate.
Qed.

Lemma strip_by_ends p s :
  (forall c, head (strip_by p s) = Some c -> p c = false) /\
  (forall c, last (strip_by p s) = Some c -> p c = false).
Proof.
  unfold strip_by. split; intros c H.
  - apply rstrip_head in H. apply (lstrip_head _ _ _ H).
  - apply (rstrip_last _ _ _ H).
Qed.

Lemma lstrip_all p s : Forall (fun c => p c = true) s -> lstrip p s = [].
Proof. induction 1 as [|c s Hc _ IH]; [reflexivity|]. simpl. rewrite Hc. exact IH. Qed.

Lemma lstrip_fixed p s :
  (forall c, head s = Some c -> p c = false) -> lstrip p s = s.
Proof.
  destruct s as [|x t]; [reflexivity|]. intros H. simpl. rewrite (H x eq_refl). reflexivity.
Qed.

Lemma rstrip_fixed p s :
  (forall c, last s = Some c -> p c = false) -> rstrip p s = s.
Proof.
  induction s as [|x t IH]; [reflexivity|]. intros H. simpl.
  destruct t as [|y t'].
  - simpl. rewrite (H x eq_refl). reflexivity.
  - rewrite IH; [reflexivity|]. intros c Hc. apply H. rewrite last_cons_cons. exact Hc.
Qed.

(** Stripping twice is stripping once. *)
Lemma strip_idem s : strip (strip s) = strip s.
Proof.
  unfold strip. destruct (strip_by_ends is_space s) as [Hh Hl].
  unfold strip_by at 1. rewrite (lstrip_fixed _ _ Hh). apply rstrip_fixed, Hl.
Qed.

End StripFacts.

(** X4. [caption_image] returns exactly when the response yields a text
    that is not empty, and what it returns is that text without white
    space at either end; otherwise it raises: the exception of the call,
    or [No text returned from model] for a missing or empty text. *)
Theorem caption_image_outcome (res : CaptionRenamer.api_result) :
  (forall caption, CaptionRenamer.caption_image res = inr caption <->
     exists resp c t, res = CaptionRenamer.Returns resp /\
       CaptionRenamer.extract_output_text resp = Some (c :: t) /\
       caption = Py.strip (c :: t)) /\
  (forall exc, CaptionRenamer.caption_image res = inl exc <->
     res = CaptionRenamer.Raises exc \/
     exists resp, res = CaptionRenamer.Returns resp /\
       (CaptionRenamer.extract_output_text resp = None \/
        CaptionRenamer.extract_output_text resp = Some []) /\
       exc = lit "No text returned from model") /\
  (forall caption, CaptionRenamer.caption_image res = inr caption ->
     (forall c, head caption = Some c -> Py.is_space c = false) /\
     (forall c, last caption = Some c -> Py.is_space c = false)).
Proof.
  split; [|split].
  - intros caption. unfold CaptionRenamer.caption_image. destruct res as [e|resp].
    + split; [discriminate|]. intros (r & c & t & H & _). discriminate.
    + destruct (CaptionRenamer.extract_output_text resp) as [[|c t]|] eqn:E.
      * split; [discriminate|]. intros (r & c & t & [= <-] & H & _). congruence.
      * split.
        -- intros [= <-]. exists resp, c, t. auto.
        -- intros (r & c' & t' & [= <-] & H & ->). congruence.
      * split; [discriminate|]. intros (r & c & t & [= <-] & H & _). congruence.
  - intros exc. unfold CaptionRenamer.caption_image. destruct res as [e|resp].
    + split.
      * intros [= ->]. left. reflexivity.
      * intros [[= ->] | (r & H & _)]; [reflexivity | discriminate].
    + destruct (CaptionRenamer.extract_output_text resp) as [[|c t]|] eqn:E.
      * split.
        -- intros [= <-]. right. exists resp. auto.
        -- intros [H | (r & _ & _ & ->)]; [discriminate | reflexivity].
      * split; [discriminate|].
        intros [H | (r & [= <-] & [H | H] & _)]; congruence.
      * split.
        -- intros [= <-]. right. exists resp. auto.
        -- intros [H | (r & _ & _ & ->)]; [discriminate | reflexivity].
  - intros caption H. unfold CaptionRenamer.caption_image in H.
    destruct res as [e|resp]; [discriminate|].
    destruct (CaptionRenamer.extract_output_text resp) as [[|c t]|]; try discriminate.
    injection H as <-. apply StripFacts.strip_by_ends.
Qed.

(** X5. An answer made of white space only is not an error: the caption
    is empty, and the file is named after the fallback base [image]. *)
Theorem blank_answer_falls_back (c : ascii) (t : str) (items : list CaptionRenamer.output_item)
    (Hblank : Forall (fun x => Py.is_space x = true) (c :: t)) :
  CaptionRenamer.caption_image
    (CaptionRenamer.Returns
       {| CaptionRenamer.output_text := Some (c :: t); CaptionRenamer.output := items |})
    = inr [] /\
  CaptionRenamer.sanitize_caption [] = lit "image".
Proof.
  split; [|reflexivity].
  unfold CaptionRenamer.caption_image, CaptionRenamer.extract_output_text.
  cbn [CaptionRenamer.output_text]. f_equal.
  unfold Py.strip, Py.strip_by. rewrite (StripFacts.lstrip_all _ _ Hblank). reflexivity.
Qed.

Lemma blank_answer_falls_back_witness :
  CaptionRenamer.caption_image
    (CaptionRenamer.Returns
       {| CaptionRenamer.output_text := Some (" "%char :: nl); CaptionRenamer.output := [] |})
    = inr [] /\
  CaptionRenamer.sanitize_caption [] = lit "image".
Proof.
  apply (blank_answer_falls_back " "%char nl []). repeat constructor.
Defined.

Section RenamerRuns.
Import Py CaptionRenamer.

Variable guess_type : str -> option str.
Variable b64encode : str -> str.
Variable abspath : str -> str.
Variable listdir : str -> list str.
Variable getenv : str -> option str.
Variable create : nat -> str -> str -> nat -> api_result.

Local Abbreviation build_data_url := (build_data_url guess_type b64encode).
Local Abbreviation handle := (handle guess_type b64encode abspath create).
Local Abbreviation process := (process guess_type b64encode abspath create).
Local Abbreviation main := (main guess_type b64encode abspath listdir getenv create).

Lemma process_return_zero a names st c st' :
  process a names st = (Return c, st') -> c = 0.
Proof.
  revert st. induction names as [|name rest IH]; intros st.
  - intros [= <- _]. reflexivity.
  - rewrite (process_cons guess_type b64encode abspath create).
    destruct (qualify (st_fs st) (dir a) name) as [[[n p] e]|]; [|apply IH].
    destruct (handle a n p e st) as [[o st1]|st1] eqn:Hh; [|apply IH].
    intros [= -> ->]. exfalso.
    exact (handle_stop guess_type b64encode abspath create _ _ _ _ _ _ _ _ Hh eq_refl).
Qed.

(** X6. [main] returns 1 exactly for a configuration error: the key
    variable is unset or empty, or the folder is not a directory. It
    has then called the service for nothing, left the file system as it
    was, and printed one line on the error stream. *)
Theorem main_returns_one (a : args) (fs : gmap str node) :
  ((main a fs).1 = Return 1 <->
   getenv (env_var a) = None \/ getenv (env_var a) = Some [] \/ isdir fs (dir a) = false) /\
  ((main a fs).1 = Return 1 ->
   st_fs (main a fs).2 = fs /\ st_calls (main a fs).2 = 0 /\
   exists msg, st_log (main a fs).2 = [Stderr msg]).
Proof.
  unfold main. destruct (getenv (env_var a)) as [[|k key]|] eqn:Hkey.
  - split; [split; auto|]. intros _. simpl. eauto.
  - destruct (isdir fs (dir a)) eqn:Hdir; simpl.
    + split; [split|].
      * intros H. destruct (process a _ _) as [o st'] eqn:Hp. simpl in H. subst o.
        apply process_return_zero in Hp. discriminate.
      * intros [H | [H | H]]; discriminate.
      * intros H. destruct (process a _ _) as [o st'] eqn:Hp. simpl in H. subst o.
        apply process_return_zero in Hp. discriminate.
    + split; [split; auto|]. intros _. simpl. eauto.
  - split; [split; auto|]. intros _. simpl. eauto.
Qed.

(** What the body of the loop does to the file system: nothing, or one
    move of the source to a path that did not exist. *)
Lemma handle_effect a name path ext st :
  match handle a name path ext st with
  | inl (_, st') => st_fs st' = st_fs st
  | inr st' =>
      st_fs st' = st_fs st \/
      exists new n,
        st_fs st !! path = Some n /\ st_fs st !! new = None /\
        st_fs st' = <[new := n]> (delete path (st_fs st))
  end.
Proof.
  unfold handle.
  destruct (build_data_url (st_fs st) path); [|reflexivity].
  destruct (caption_image _); [left; reflexivity|].
  cbn [st_fs called].
  destruct (unique_path _ _ _ _ _) as [new|] eqn:Hu; [|reflexivity].
  case_bool_decide; [left; reflexivity|].
  destruct (dry_run a); [left; reflexivity|].
  unfold rename. destruct (st_fs st !! path) as [n|] eqn:Hpath; [|reflexivity].
  right. exists new, n. split; [reflexivity|]. split; [|reflexivity].
  apply unique_path_fresh in Hu. unfold path_exists in Hu.
  apply bool_decide_eq_false in Hu. destruct (st_fs st !! new); [|reflexivity].
  exfalso. apply Hu. eauto.
Qed.

(** The loop leaves alone every entry that is not at the path of a name
    it is given. *)
Lemma process_frame a names st p m :
  st_fs st !! p = Some m ->
  p ∉ map (path_join (dir a)) names ->
  st_fs (process a names st).2 !! p = Some m.
Proof.
  revert st. induction names as [|name rest IH]; intros st Hp Hout; [exact Hp|].
  rewrite (process_cons guess_type b64encode abspath create).
  cbn [map] in Hout. apply not_elem_of_cons in Hout as [Hne Hrest].
  destruct (qualify (st_fs st) (dir a) name) as [[[n q] e]|] eqn:Hq;
    [|apply IH; assumption].
  apply (qualify_some listdir) in Hq as ([= -> -> ->] & _).
  pose proof (handle_effect a name (path_join (dir a) name)
                (lower (splitext name).2) st) as He.
  destruct (handle a name _ _ st) as [[o st1]|st1].
  - cbn [snd]. rewrite He. exact Hp.
  - apply IH; [|exact Hrest].
    destruct He as [-> | (new & n & Hpath & Hnew & ->)]; [exact Hp|].
    rewrite lookup_insert_ne by congruence.
    rewrite lookup_delete_ne by congruence. exact Hp.
Qed.

(** X7. The script changes nothing outside the listing of the folder:
    an entry of the file system whose path is not that of a listed name
    of the folder is, after [main], where and what it was, whatever the
    service answers and however the run ends. *)
Theorem main_keeps_unlisted (a : args) (fs : gmap str node) (p : str) (m : node)
    (Hp : fs !! p = Some m)
    (Hout : p ∉ map (path_join (dir a)) (listdir (dir a))) :
  st_fs (main a fs).2 !! p = Some m.
Proof.
  unfold main. destruct (getenv (env_var a)) as [[|k key]|]; try exact Hp.
  destruct (negb (isdir fs (dir a))); [exact Hp|].
  apply process_frame; [exact Hp|].
  intros Hin. apply Hout.
  apply list_elem_of_In, in_map_iff in Hin as (name & <- & Hname).
  apply list_elem_of_In, in_map_iff. exists name. split; [reflexivity|].
  apply list_elem_of_In, OrderFacts.elem_of_sorted, list_elem_of_In, Hname.
Qed.

End RenamerRuns.

Section DryRunCount.
Import Py CaptionRenamer.

Variable guess_type : str -> option str.
Variable b64encode : str -> str.
Variable abspath : str -> str.
Variable listdir : str -> list str.
Variable getenv : str -> option str.
Variable create : nat -> str -> str -> nat -> api_result.

Local Abbreviation handle := (handle guess_type b64encode abspath create).
Local Abbreviation process := (process guess_type b64encode abspath create).
Local Abbreviation main := (main guess_type b64encode abspath listdir getenv create).




End DryRunCount.

Module OrderExtra.
Import Py OrderFacts.

Lemma nat_of_ascii_inj x y : nat_of_ascii x = nat_of_ascii y -> x = y.
Proof.
  intros H. rewrite <- (ascii_nat_embedding x), <- (ascii_nat_embedding y), H. reflexivity.
Qed.

Lemma str_leb_antisym a b : str_leb a b = true -> str_leb b a = true -> a = b.
Proof.
  revert b. induction a as [|x a IH]; intros [|y b]; simpl; try congruence.
  destruct (nat_of_ascii x <? nat_of_ascii y) eqn:Hxy;
  destruct (nat_of_ascii y <? nat_of_ascii x) eqn:Hyx; try congruence.
  - rewrite !Nat.ltb_lt in *. lia.
  - rewrite !Nat.ltb_ge in *. intros Hab Hba.
    assert (x = y) as -> by (apply nat_of_ascii_inj; lia).
    f_equal. apply IH; assumption.
Qed.

#[global] Instance str_le_antisym : AntiSymm (=) str_le.
Proof. intros a b. apply str_leb_antisym. Qed.

Lemma sorted_permutation l1 l2 : l1 ≡ₚ l2 -> sorted l1 = sorted l2.
Proof.
  intros Hp. apply (StronglySorted_unique str_le); try apply sorted_sorted.
  unfold sorted. rewrite !merge_sort_Permutation. exact Hp.
Qed.

End OrderExtra.

(** X9. The images are enumerated in the same order whatever order the
    system lists the folder in: two listings with the same names give
    the same sequence of images. *)
Theorem iter_images_listing_order (listdir1 listdir2 : str -> list str)
    (fs : gmap str CaptionRenamer.node) (folder : str)
    (Hsame : listdir1 folder ≡ₚ listdir2 folder) :
  CaptionRenamer.iter_images listdir1 fs folder = CaptionRenamer.iter_images listdir2 fs folder.
Proof.
  unfold CaptionRenamer.iter_images. rewrite (OrderExtra.sorted_permutation _ _ Hsame).
  reflexivity.
Qed.

Module NameFacts.
Import Py TitleFacts PatternFacts Extra.

Lemma endswith_spec l s : endswith l s = true <-> exists r, s = r ++ l.
Proof.
  unfold endswith. rewrite startswith_spec. split.
  - intros [r Hr]. exists (rev r).
    rewrite <- (rev_involutive s), Hr, rev_app_distr, rev_involutive. reflexivity.
  - intros [r ->]. exists (rev r). apply rev_app_distr.
Qed.

Lemma basename_after_slash r n :
  "/"%char ∉ n -> basename (r ++ "/"%char :: n) = n.
Proof.
  intros Hn. unfold basename. rewrite (rfind_last _ _ _ Hn).
  change (r ++ "/"%char :: n) with (r ++ ["/"%char] ++ n). rewrite app_assoc.
  apply drop_app_length'. rewrite length_app. simpl. lia.
Qed.

(** The name that was joined to a folder is the base name of the path. *)
Lemma basename_path_join d n : "/"%char ∉ n -> basename (path_join d n) = n.
Proof.
  intros Hn. unfold path_join.
  assert (startswith (lit "/") n = false) as ->.
  { destruct n as [|c n]; [reflexivity|]. simpl.
    rewrite bool_decide_eq_false_2; [reflexivity|].
    intros <-. apply Hn. left. }
  destruct (bool_decide (d = [])) eqn:Hd.
  - apply bool_decide_eq_true in Hd. subst d. cbn [orb app].
    unfold basename. rewrite (rfind_none _ _ Hn). reflexivity.
  - cbn [orb]. destruct (endswith (lit "/") d) eqn:He.
    + apply endswith_spec in He as [r ->]. rewrite <- app_assoc.
      apply (basename_after_slash r n Hn).
    + apply (basename_after_slash d n Hn).
Qed.

Lemma uint_digits d :
  Forall file_char (lit (NilEmpty.string_of_uint d)).
Proof.
  induction d; simpl; constructor; try assumption; left; reflexivity.
Qed.

Lemma fmt02d_chars i : Forall file_char (fmt02d i).
Proof.
  unfold fmt02d, decimal. destruct (_ <? 2).
  - constructor; [left; reflexivity | apply uint_digits].
  - apply uint_digits.
Qed.

Lemma image_ext_chars ext : ext ∈ CaptionRenamer.IMAGE_EXTS -> Forall file_char ext.
Proof.
  unfold CaptionRenamer.IMAGE_EXTS. intros H.
  repeat (apply elem_of_cons in H as [->|H];
          [repeat constructor; (left; reflexivity) || (right; reflexivity)|]).
  inversion H.
Qed.

Lemma file_chars_no_slash s : Forall file_char s -> "/"%char ∉ s.
Proof.
  intros H Hin. rewrite Forall_forall in H. destruct (H _ Hin) as [E | E]; discriminate.
Qed.

End NameFacts.

(** X10. The destination chosen for a caption always lies directly in
    the folder, under a plain name: the sanitized base, possibly a
    two-digit or longer suffix [_NN] with [NN >= 2], and the extension;
    the name is made of lowercase letters, digits, underscores and dots
    only, so it holds no separator. *)
Theorem new_name_shape (fuel : nat) (fs : gmap str CaptionRenamer.node)
    (directory caption ext p : str)
    (Hext : ext ∈ CaptionRenamer.IMAGE_EXTS)
    (Hp : CaptionRenamer.unique_path fuel fs directory
            (CaptionRenamer.sanitize_caption caption) ext = Some p) :
  p = Py.path_join directory (Py.basename p) /\
  (Py.basename p = CaptionRenamer.sanitize_caption caption ++ ext \/
   exists i, 2 <= i /\
     Py.basename p = CaptionRenamer.sanitize_caption caption ++ lit "_" ++ Py.fmt02d i ++ ext) /\
  Forall (fun c => Extra.name_char c = true \/ c = "."%char) (Py.basename p) /\
  ("/"%char ∉ Py.basename p).
Proof.
  pose proof (SanitizeShape.sanitize_name_chars caption) as Hbase.
  pose proof (NameFacts.image_ext_chars _ Hext) as Hechars.
  assert (Hb : Forall Extra.file_char (CaptionRenamer.sanitize_caption caption)).
  { eapply Forall_impl; [exact Hbase|]. intros c Hc. left. exact Hc. }
  assert (Hshape : exists n,
    p = Py.path_join directory n /\ Forall Extra.file_char n /\
    (n = CaptionRenamer.sanitize_caption caption ++ ext \/
     exists i, 2 <= i /\
       n = CaptionRenamer.sanitize_caption caption ++ lit "_" ++ Py.fmt02d i ++ ext)).
  { unfold CaptionRenamer.unique_path in Hp.
    destruct (negb _).
    - injection Hp as <-. eexists. split; [reflexivity|]. split; [|left; reflexivity].
      apply Forall_app. split; assumption.
    - apply UniquePath.probe_some in Hp as (k & _ & -> & _).
      eexists. split; [reflexivity|]. split; [|right; exists (2 + k); split; [lia | reflexivity]].
      apply Forall_app. split; [exact Hb|].
      apply Forall_app. split; [repeat constructor; left; reflexivity|].
      apply Forall_app. split; [apply NameFacts.fmt02d_chars | exact Hechars]. }
  destruct Hshape as (n & -> & Hn & Hform).
  rewrite (NameFacts.basename_path_join _ _ (NameFacts.file_chars_no_slash _ Hn)).
  split; [reflexivity|]. split; [exact Hform|]. split; [exact Hn|].
  apply NameFacts.file_chars_no_slash, Hn.
Qed.

Module LoadFacts.
Import Py TagApplier Extra.

Lemma load_rows_retain rs :
  Forall Spec.complete rs -> load_rows rs = inr (omap retain rs).
Proof.
  induction 1 as [|r rs [[f Hf] [t Ht]] _ IH]; [reflexivity|].
  cbn [load_rows omap list_omap]. unfold retain at 1. rewrite Hf, Ht, IH.
  destruct (strip f); reflexivity.
Qed.

Lemma load_rows_incomplete rs :
  ~ Forall Spec.complete rs -> load_rows rs = inl (lit "AttributeError").
Proof.
  induction rs as [|r rs IH]; intros Hnot; [exfalso; apply Hnot; constructor|].
  cbn [load_rows].
  destruct (row_filename r) as [f|] eqn:Hf; [|reflexivity].
  destruct (row_tag r) as [t|] eqn:Ht; [|reflexivity].
  rewrite IH; [reflexivity|]. intros Hrs. apply Hnot. constructor; [|exact Hrs].
  split; [rewrite Hf | rewrite Ht]; eauto.
Qed.

Lemma missing_tags_retain rs :
  missing_tags (omap retain rs) = omap untagged_name rs.
Proof.
  unfold missing_tags. induction rs as [|r rs IH]; [reflexivity|].
  cbn [omap list_omap]. unfold untagged_name at 1.
  destruct (retain r) as [[name tag]|]; [|exact IH].
  rewrite filter_cons. cbn [snd]. destruct (decide (tag = [])) as [->|Hne].
  - cbn [map fst]. f_equal. exact IH.
  - destruct tag; [congruence|]. exact IH.
Qed.

End LoadFacts.

(** X11. The loading loop keeps, in the order of the CSV file, exactly
    the records whose file name is not empty after trimming, with both
    fields trimmed; it raises [AttributeError] as soon as one record
    lacks a field, be its file name empty or not. *)
Theorem load_rows_keeps_order (rs : list TagApplier.csv_row) :
  (Forall Spec.complete rs -> TagApplier.load_rows rs = inr (omap Extra.retain rs)) /\
  (~ Forall Spec.complete rs -> TagApplier.load_rows rs = inl (lit "AttributeError")) /\
  (forall rows name tag, TagApplier.load_rows rs = inr rows -> (name, tag) ∈ rows ->
     name <> [] /\ Py.strip name = name /\ Py.strip tag = tag).
Proof.
  split; [apply LoadFacts.load_rows_retain|]. split; [apply LoadFacts.load_rows_incomplete|].
  intros rows name tag Hrows Hin.
  pose proof (GateFacts.load_rows_inr _ _ Hrows) as Hc.
  destruct (GateFacts.load_rows_complete _ Hc) as (rows' & Hrows' & Hchar).
  rewrite Hrows in Hrows'. injection Hrows' as <-.
  apply Hchar in Hin as (r & f & t & _ & _ & _ & <- & Hne & <-).
  split; [exact Hne|]. split; apply StripFacts.strip_idem.
Qed.

(** X12. A run that does not complete prints nothing but the report of
    missing tags and leaves [gallery.html] as it was, existing or not:
    the page is only ever written by a run that completes. *)
Theorem failed_run_keeps_page (csv : option TagApplier.csv_file) (html : option str)
    (Hfail : TagApplier.res_exit (TagApplier.run csv html) <> TagApplier.Completed) :
  TagApplier.res_html (TagApplier.run csv html) = html /\
  (TagApplier.res_exit (TagApplier.run csv html)
     <> TagApplier.SystemExit (lit "Please fill all tags before applying.") ->
   TagApplier.res_stdout (TagApplier.run csv html) = []).
Proof.
  split; [apply GateFacts.run_writes_only_on_completion, Hfail|].
  revert Hfail. unfold TagApplier.run.
  repeat match goal with
         | |- context [match ?x with _ => _ end] => destruct x; try reflexivity
         end; simpl; congruence.
Qed.

Lemma failed_run_keeps_page_witness :
  TagApplier.res_html (TagApplier.run None (Some Fixtures.gallery)) = Some Fixtures.gallery /\
  (TagApplier.res_exit (TagApplier.run None (Some Fixtures.gallery))
     <> TagApplier.SystemExit (lit "Please fill all tags before applying.") ->
   TagApplier.res_stdout (TagApplier.run None (Some Fixtures.gallery)) = []).
Proof.
  apply (failed_run_keeps_page None (Some Fixtures.gallery)). discriminate.
Defined.

(** X13. The script completes exactly when the CSV file exists with both
    headers, every record has both fields, at least one record has a
    file name, no retained record lacks a tag, the page exists, and the
    pattern matches somewhere in it. It then prints one line, with the
    number of retained records. *)
Theorem run_completes_iff (csv : option TagApplier.csv_file) (html : option str) :
  (TagApplier.res_exit (TagApplier.run csv html) = TagApplier.Completed <->
   exists f names text,
     csv = Some f /\ html = Some text /\
     TagApplier.fieldnames f = Some names /\
     lit "filename" ∈ names /\ lit "tag" ∈ names /\
     Forall Spec.complete (TagApplier.records f) /\
     omap Extra.retain (TagApplier.records f) <> [] /\
     omap Extra.untagged_name (TagApplier.records f) = [] /\
     exists i, Spec.anchor_at text i) /\
  (TagApplier.res_exit (TagApplier.run csv html) = TagApplier.Completed ->
   exists f, csv = Some f /\
     TagApplier.res_stdout (TagApplier.run csv html)
       = [lit "Updated gallery.html with "
            ++ Py.decimal (length (omap Extra.retain (TagApplier.records f)))
            ++ lit " tagged photos"]).
Proof.
  assert (Hanchor : forall c text,
    TagApplier.splice c text = None <-> ~ exists i, Spec.anchor_at text i).
  { intros c text. unfold TagApplier.splice.
    destruct (TagApplier.search text) eqn:Hs.
    - split; [discriminate|]. intros Hno. exfalso.
      assert (TagApplier.search text = None) as E; [|congruence].
      apply PatternFacts.search_none_iff_no_anchor. intros i Hi. apply Hno. eauto.
    - split; [|reflexivity]. intros _ [i Hi].
      exact (proj1 (PatternFacts.search_none_iff_no_anchor text) Hs i Hi). }
  unfold TagApplier.run. destruct csv as [f|].
  2: { split; [split; [discriminate|]|discriminate]. intros (f & ? & ? & H & _). discriminate. }
  destruct (TagApplier.fieldnames f) as [names|] eqn:Hnames.
  2: { split; [split; [discriminate|]|discriminate].
       intros (f' & ? & ? & [= <-] & _ & H & _). congruence. }
  destruct (decide (lit "filename" ∈ names)) as [Hfn|Hfn].
  2: { rewrite (bool_decide_eq_false_2 _ Hfn). cbn [negb orb].
       split; [split; [discriminate|]|discriminate].
       intros (f' & n' & ? & [= <-] & _ & H & H' & _). congruence. }
  destruct (decide (lit "tag" ∈ names)) as [Htg|Htg].
  2: { rewrite (bool_decide_eq_true_2 _ Hfn), (bool_decide_eq_false_2 _ Htg). cbn [negb orb].
       split; [split; [discriminate|]|discriminate].
       intros (f' & n' & ? & [= <-] & _ & H & _ & H' & _). congruence. }
  rewrite !bool_decide_eq_true_2 by assumption. cbn [negb orb].
  destruct (decide (Forall Spec.complete (TagApplier.records f))) as [Hc|Hc].
  2: { rewrite (LoadFacts.load_rows_incomplete _ Hc).
       split; [split; [discriminate|]|discriminate].
       intros (f' & n' & ? & [= <-] & _ & _ & _ & _ & H & _). contradiction. }
  rewrite (LoadFacts.load_rows_retain _ Hc).
  destruct (omap Extra.retain (TagApplier.records f)) as [|row rows] eqn:Hrows.
  { split; [split; [discriminate|]|discriminate].
    intros (f' & n' & ? & [= <-] & _ & _ & _ & _ & _ & H & _). congruence. }
  pose proof (LoadFacts.missing_tags_retain (TagApplier.records f)) as Hm.
  rewrite Hrows in Hm. rewrite Hm.
  destruct (omap Extra.untagged_name (TagApplier.records f)) as [|m ms] eqn:Hmiss.
  2: { split; [split; [discriminate|]|discriminate].
       intros (f' & n' & ? & [= <-] & _ & _ & _ & _ & _ & _ & H & _). congruence. }
  destruct html as [text|].
  2: { split; [split; [discriminate|]|discriminate].
       intros (f' & n' & ? & _ & H & _). discriminate. }
  destruct (TagApplier.splice _ text) as [text'|] eqn:Hs.
  - split; [split|].
    + intros _. exists f, names, text. repeat split; try assumption; try congruence.
      destruct (AnchorFacts.splice_first_match _ _ _ Hs) as (i & g2 & g3 & post & _ & Hg & Hd & _).
      exists i, g2, g3, post. split; assumption.
    + reflexivity.
    + intros _. exists f. split; [reflexivity|]. rewrite Hrows. reflexivity.
  - split; [split; [discriminate|]|discriminate].
    intros (f' & n' & t' & _ & [= <-] & _ & _ & _ & _ & _ & _ & Hi).
    apply Hanchor in Hs. contradiction.
Qed.

(** X14. When the gate stops the run, what is printed is the heading and
    then exactly one line per retained record without a tag, in the
    order of the CSV file: no record is reported that has a tag. *)
Theorem missing_report_exact (f : TagApplier.csv_file) (names : list str) (html : option str)
    (m : str) (ms : list str)
    (Hheader : TagApplier.fieldnames f = Some names)
    (Hfilename : lit "filename" ∈ names)
    (Htag : lit "tag" ∈ names)
    (Hcomplete : Forall Spec.complete (TagApplier.records f))
    (Hmissing : omap Extra.untagged_name (TagApplier.records f) = m :: ms) :
  TagApplier.run (Some f) html =
    TagApplier.stop (TagApplier.SystemExit (lit "Please fill all tags before applying."))
      (lit "Missing tags for these files:"
         :: map (fun name => lit " - " ++ name)
              (omap Extra.untagged_name (TagApplier.records f)))
      html.
Proof.
  unfold TagApplier.run. rewrite Hheader.
  rewrite !bool_decide_eq_true_2 by assumption. cbn [negb orb].
  rewrite (LoadFacts.load_rows_retain _ Hcomplete).
  pose proof (LoadFacts.missing_tags_retain (TagApplier.records f)) as Hm.
  destruct (omap Extra.retain (TagApplier.records f)) as [|row rows] eqn:Hrows.
  { rewrite Hmissing in Hm. discriminate. }
  rewrite Hm, Hmissing. reflexivity.
Qed.

Lemma missing_report_exact_witness :
  TagApplier.run (Some Fixtures.untagged_csv) (Some Fixtures.gallery) =
    TagApplier.stop (TagApplier.SystemExit (lit "Please fill all tags before applying."))
      (lit "Missing tags for these files:"
         :: map (fun name => lit " - " ++ name)
              (omap Extra.untagged_name (TagApplier.records Fixtures.untagged_csv)))
      (Some Fixtures.gallery).
Proof.
  apply (missing_report_exact Fixtures.untagged_csv [lit "filename"; lit "tag"]
           (Some Fixtures.gallery) (lit "b.jpg") [lit "c.jpg"]).
  - reflexivity.
  - repeat constructor.
  - repeat constructor.
  - repeat constructor; eexists; reflexivity.
  - vm_compute. reflexivity.
Defined.

Module TitleShape.
Import Py PyFacts TagApplier WordFacts Extra.

Lemma case_chars c :
  Spec.word_sep c = false ->
  is_space (upper_char c) = false /\ is_space (lower_char c) = false /\
  upper_char c <> "_"%char /\ lower_char c <> "_"%char.
Proof.
  destruct c as [[] [] [] [] [] [] [] []]; intros H;
    try discriminate H; repeat split; (reflexivity || discriminate).
Qed.

Lemma case_marks c : is_lower (upper_char c) = false /\ is_upper (lower_char c) = false.
Proof. destruct c as [[] [] [] [] [] [] [] []]; split; reflexivity. Qed.

Lemma capitalize_word w :
  word Spec.word_sep w ->
  word is_space (capitalize w) /\ ("_"%char ∉ capitalize w) /\ capitalized (capitalize w).
Proof.
  intros [Hne Hw]. destruct w as [|c t]; [congruence|].
  inversion Hw as [|? ? Hc Ht]; subst. unfold capitalize.
  destruct (case_chars c Hc) as (H1 & _ & H3 & _).
  assert (Forall (fun x => is_space x = false /\ x <> "_"%char /\ is_upper x = false) (lower t))
    as Hl.
  { unfold lower. apply Forall_fmap. eapply Forall_impl; [exact Ht|].
    intros x Hx. destruct (case_chars x Hx) as (_ & H2 & _ & H4). simpl.
    split; [exact H2|]. split; [exact H4 | apply case_marks]. }
  split; [|split].
  - split; [discriminate|]. constructor; [exact H1|].
    eapply Forall_impl; [exact Hl|]. intros x Hx. apply Hx.
  - intros Hin. apply elem_of_cons in Hin as [Heq | Hin]; [congruence|].
    rewrite Forall_forall in Hl. destruct (Hl _ Hin) as (_ & Hx & _). congruence.
  - exists (upper_char c), (lower t). split; [reflexivity|].
    split; [apply case_marks|]. eapply Forall_impl; [exact Hl|]. intros x Hx. apply Hx.
Qed.

Lemma capitalize_words ws :
  Forall (word Spec.word_sep) ws ->
  Forall (word is_space) (map capitalize ws) /\
  Forall (fun w => "_"%char ∉ w) (map capitalize ws) /\
  Forall capitalized (map capitalize ws).
Proof.
  induction 1 as [|w ws Hw _ (IH1 & IH2 & IH3)]; [repeat split; constructor|].
  destruct (capitalize_word _ Hw) as (H1 & H2 & H3).
  simpl. repeat split; constructor; assumption.
Qed.

End TitleShape.

(** X15. A title holds no underscore and has no blank at either end;
    split at white space it gives back the words of the name before its
    last dot, each capitalized: nothing in front that is a lowercase
    letter, and no capital after the first character. *)
Theorem title_from_name_shape (name : str) :
  ("_"%char ∉ TagApplier.title_from_name name) /\
  head (TagApplier.title_from_name name) <> Some " "%char /\
  last (TagApplier.title_from_name name) <> Some " "%char /\
  Py.split (TagApplier.title_from_name name)
    = map Py.capitalize (Py.fields Spec.word_sep (Py.rsplit1_head "."%char name)) /\
  Forall Extra.capitalized (Py.split (TagApplier.title_from_name name)).
Proof.
  rewrite TitleFacts.title_from_name_base. unfold Spec.title_of_base.
  set (ws := Py.fields Spec.word_sep (Py.rsplit1_head "."%char name)).
  destruct (TitleShape.capitalize_words ws (WordFacts.fields_words _ _)) as (H1 & H2 & H3).
  change (lit " ") with [" "%char].
  assert (Hsplit : Py.split (Py.join [" "%char] (map Py.capitalize ws)) = map Py.capitalize ws).
  { apply (WordFacts.fields_join Py.is_space " "%char _ eq_refl H1). }
  split; [|split; [|split; [|split]]].
  - intros Hin.
    assert (Forall (fun c => c <> "_"%char) (Py.join [" "%char] (map Py.capitalize ws))) as Hall.
    { apply (WordFacts.join_chars " "%char (fun c => c <> "_"%char)); [discriminate|].
      eapply Forall_impl; [exact H2|]. intros w Hw. apply Forall_forall. intros c Hc ->.
      exact (Hw Hc). }
    rewrite Forall_forall in Hall. exact (Hall _ Hin eq_refl).
  - destruct (map Py.capitalize ws) as [|w ws'] eqn:E; [discriminate|].
    destruct (WordFacts.join_head Py.is_space " "%char eq_refl w ws' H1) as (c & t & -> & Hc).
    simpl. congruence.
  - destruct (map Py.capitalize ws) as [|w ws'] eqn:E; [discriminate|].
    apply (WordFacts.join_last Py.is_space " "%char eq_refl), H1.
  - exact Hsplit.
  - rewrite Hsplit. exact H3.
Qed.

(** X16. The splice acts on the first match of the pattern: no match
    starts before the opening tag that is kept. It replaces the text
    between that opening tag and the first closing sequence after it: no
    closing sequence starts inside the text that is replaced. What
    stands before the opening tag and after that closing sequence is
    kept, and the page changes in length by the cards and one line feed
    for the interior. *)
Theorem splice_first_closing (c html h1 : str)
    (Hsplice : TagApplier.splice c html = Some h1) :
  exists pre g2 g3 post,
    html = pre ++ TagApplier.opener ++ g2 ++ g3 ++ post /\
    h1 = pre ++ TagApplier.opener ++ nl ++ c ++ g3 ++ post /\
    Spec.closing g3 /\
    (forall k, k < length pre ->
       TagApplier.match_at (drop k html) = None /\ ~ Spec.anchor_at html k) /\
    (forall k g rest, k < length g2 -> Spec.closing g ->
       drop k (g2 ++ g3 ++ post) <> g ++ rest) /\
    length h1 + length g2 = length html + 1 + length c.
Proof.
  apply PatternFacts.splice_some in Hsplice as (pre & t & n2 & n3 & -> & Hfirst & Ht & ->).
  apply PatternFacts.lazy_body_some in Ht as (Hle & _ & Hat & Hmin).
  pose proof Hat as Hat'. apply PatternFacts.closer_at_spec in Hat' as (g3 & Hg3 & Hg).
  assert (length g3 = n3) as Hn3.
  { apply (f_equal (@length ascii)) in Hg. rewrite length_app, !length_drop in Hg. lia. }
  assert (take n3 (drop n2 t) = g3) as Htake.
  { rewrite Hg. apply take_app_length'. symmetry. exact Hn3. }
  assert (t = take n2 t ++ g3 ++ drop (n2 + n3) t) as Ht.
  { rewrite <- Hg, take_drop. reflexivity. }
  exists pre, (take n2 t), g3, (drop (n2 + n3) t).
  split; [rewrite <- Ht; reflexivity|]. split; [rewrite Htake; reflexivity|].
  split; [exact Hg3|]. split; [|split].
  - intros k Hk. split; [exact (Hfirst k Hk)|].
    intros Hanchor. unfold Spec.anchor_at in Hanchor.
    apply PatternFacts.match_at_anchor in Hanchor as [x Hx].
    rewrite (Hfirst k Hk) in Hx. discriminate.
  - intros k g rest Hk Hclosing Heq. rewrite <- Ht in Heq.
    rewrite length_take in Hk.
    assert (TagApplier.closer_at (drop k t) = Some rest) as Hsome.
    { apply PatternFacts.closer_at_spec. eauto. }
    rewrite Hmin in Hsome by lia. discriminate.
  - rewrite Htake. repeat rewrite length_app. rewrite length_take, length_drop.
    change (length nl) with 1. lia.
Qed.

Lemma splice_first_closing_witness :
  exists pre g2 g3 post,
    Fixtures.double_gallery = pre ++ TagApplier.opener ++ g2 ++ g3 ++ post /\
    lit "<main>" ++ nl ++ TagApplier.opener ++ nl ++ lit "new" ++ nl
      ++ lit "  </div>" ++ nl ++ lit "</main>" ++ nl ++ Fixtures.gallery
      = pre ++ TagApplier.opener ++ nl ++ lit "new" ++ g3 ++ post /\
    Spec.closing g3 /\
    (forall k, k < length pre ->
       TagApplier.match_at (drop k Fixtures.double_gallery) = None /\
       ~ Spec.anchor_at Fixtures.double_gallery k) /\
    (forall k g rest, k < length g2 -> Spec.closing g ->
       drop k (g2 ++ g3 ++ post) <> g ++ rest) /\
    length (lit "<main>" ++ nl ++ TagApplier.opener ++ nl ++ lit "new" ++ nl
              ++ lit "  </div>" ++ nl ++ lit "</main>" ++ nl ++ Fixtures.gallery) + length g2
      = length Fixtures.double_gallery + 1 + length (lit "new").
Proof.
  apply (splice_first_closing (lit "new") Fixtures.double_gallery). vm_compute. reflexivity.
Defined.

Module RerunFacts.
Import Py PyFacts TagApplier PatternFacts Extra.

Lemma closer_at_other c s : c <> "010"%char -> closer_at (c :: s) = None.
Proof.
  intros Hc. unfold closer_at. simpl expect.
  rewrite bool_decide_eq_false_2 by congruence. reflexivity.
Qed.

Lemma no_closing_app a b rest :
  no_closing_in a (b ++ rest) -> no_closing_in b rest -> no_closing_in (a ++ b) rest.
Proof.
  intros Ha Hb k Hk. rewrite <- app_assoc.
  destruct (decide (k < length a)) as [Hlt|Hge]; [apply Ha, Hlt|].
  rewrite length_app in Hk.
  replace k with (length a + (k - length a)) by lia.
  rewrite drop_app_add. apply Hb. lia.
Qed.

Lemma no_closing_plain a rest : "010"%char ∉ a -> no_closing_in a rest.
Proof.
  induction a as [|c a IH]; intros Hnl k Hk; [simpl in Hk; lia|].
  apply not_elem_of_cons in Hnl as [Hc Ha].
  destruct k as [|k]; [apply closer_at_other; congruence|].
  simpl. apply IH; [exact Ha | simpl in Hk; lia].
Qed.

Lemma no_closing_nl rest : closer_at (nl ++ rest) = None -> no_closing_in nl rest.
Proof. intros H [|k] Hk; [exact H | simpl in Hk; lia]. Qed.

Lemma plain_check a :
  forallb (fun c => negb (Ascii.eqb c "010"%char)) a = true -> "010"%char ∉ a.
Proof.
  intros H Hin. rewrite forallb_forall in H.
  apply list_elem_of_In in Hin. specialize (H _ Hin).
  rewrite Ascii.eqb_refl in H. discriminate.
Qed.

(** The last line of a card ends no match when the text goes on. *)
Lemma closer_at_last_line x :
  goes_on x -> closer_at (nl ++ lit "            </div>" ++ x) = None.
Proof.
  intros (x' & -> & Hx). unfold closer_at.
  rewrite expect_app. cbn [mbind option_bind].
  change (lit "            </div>" ++ nl ++ x')
    with (lit "            " ++ ("<"%char :: lit "/div>") ++ nl ++ x').
  assert (Forall (fun c => is_space c = true) (lit "            ")) as Hws
    by (repeat constructor).
  rewrite (lstrip_app_lit is_space (lit "            ") "<"%char (lit "/div>") (nl ++ x')
             Hws eq_refl).
  rewrite (expect_app ("<"%char :: lit "/div>")). cbn [mbind option_bind].
  rewrite expect_app. cbn [mbind option_bind]. exact Hx.
Qed.

Lemma title_one_line name : "010"%char ∉ title_from_name name.
Proof.
  rewrite TitleFacts.title_from_name_base. unfold Spec.title_of_base. intros Hin.
  destruct (TitleShape.capitalize_words _
              (WordFacts.fields_words Spec.word_sep (rsplit1_head "."%char name)))
    as (H1 & _ & _).
  assert (Forall (fun c => c <> "010"%char)
            (join (lit " ") (map capitalize (fields Spec.word_sep (rsplit1_head "."%char name)))))
    as Hall.
  { apply (WordFacts.join_chars " "%char (fun c => c <> "010"%char)); [discriminate|].
    eapply Forall_impl; [exact H1|]. intros w [_ Hw].
    eapply Forall_impl; [exact Hw|]. intros c Hc ->. discriminate. }
  rewrite Forall_forall in Hall. exact (Hall _ Hin eq_refl).
Qed.

Lemma block_goes_on r x : goes_on (block r ++ x).
Proof.
  exists (card r.1 r.2 ++ x). split; [unfold block; rewrite <- app_assoc; reflexivity|].
  reflexivity.
Qed.

Lemma block_no_closing r x : one_line r -> goes_on x -> no_closing_in (block r) x.
Proof.
  intros [Hf Ht] Hx. pose proof (title_one_line r.1) as Htitle.
  unfold block, card.
  repeat match goal with
  | |- no_closing_in (nl ++ ?b) ?x =>
      apply no_closing_app; [apply no_closing_nl; first [reflexivity | idtac]|]
  | |- no_closing_in nl ?x => apply no_closing_nl; first [reflexivity | idtac]
  | |- no_closing_in (?a ++ ?b) ?x =>
      apply no_closing_app;
      [apply no_closing_plain;
       first [assumption | apply plain_check; reflexivity]|]
  | |- no_closing_in ?a ?x =>
      apply no_closing_plain; first [assumption | apply plain_check; reflexivity]
  end.
  repeat rewrite <- app_assoc. apply closer_at_last_line, Hx.
Qed.

Lemma blocks_no_closing rows x :
  Forall one_line rows -> goes_on x ->
  no_closing_in (concat (map block rows)) x /\ goes_on (concat (map block rows) ++ x).
Proof.
  intros Hrows Hx. induction Hrows as [|r rows Hr _ [IH1 IH2]].
  - split; [intros k Hk; simpl in Hk; lia | exact Hx].
  - cbn [map concat]. split.
    + apply no_closing_app; [|exact IH1]. apply block_no_closing; assumption.
    + rewrite <- app_assoc. apply block_goes_on.
Qed.

Lemma cards_blocks rows :
  rows <> [] -> nl ++ cards_html rows = concat (map block rows) ++ nl.
Proof.
  intros Hne. unfold cards_html. rewrite app_assoc. f_equal.
  induction rows as [|r rows IH]; [congruence|].
  cbn [map concat]. rewrite join_cons. unfold block at 1. rewrite <- !app_assoc.
  do 2 f_equal. destruct rows as [|r' rows']; [reflexivity|].
  cbn [map] in *. rewrite IH by discriminate. reflexivity.
Qed.

(** The closing sequence of a match, with the line feed before it. *)
Lemma closing_goes_on g3 post : Spec.closing g3 -> goes_on (nl ++ g3 ++ post).
Proof.
  intros (ws1 & ws2 & Hws1 & Hws2 & ->). eexists. split; [reflexivity|].
  rewrite <- !app_assoc.
  change (nl ++ ws1 ++ lit "</div>" ++ nl ++ ws2 ++ lit "</main>" ++ post)
    with ((nl ++ ws1) ++ ("<"%char :: lit "/div>") ++ nl ++ ws2 ++ lit "</main>" ++ post).
  assert (Forall (fun c => is_space c = true) (nl ++ ws1)) as Hws
    by (constructor; [reflexivity | exact Hws1]).
  rewrite (lstrip_app_lit is_space (nl ++ ws1) "<"%char (lit "/div>") _ Hws eq_refl).
  reflexivity.
Qed.

Lemma closing_with_line g3 post :
  Spec.closing g3 -> closer_at (nl ++ g3 ++ post) = Some post.
Proof.
  intros (ws1 & ws2 & Hws1 & Hws2 & ->). apply closer_at_spec.
  exists (nl ++ (nl ++ ws1) ++ lit "</div>" ++ nl ++ ws2 ++ lit "</main>"). split.
  - exists (nl ++ ws1), ws2. split; [|split; [exact Hws2 | reflexivity]].
    constructor; [reflexivity | exact Hws1].
  - rewrite <- !app_assoc. reflexivity.
Qed.

(** The splice run on its own output, for rows without line feeds. *)
Lemma splice_rerun_exact rows html h1 :
  rows <> [] -> Forall one_line rows ->
  splice (cards_html rows) html = Some h1 ->
  exists pre g3 post,
    Spec.closing g3 /\
    h1 = pre ++ opener ++ nl ++ cards_html rows ++ g3 ++ post /\
    splice (cards_html rows) h1
      = Some (pre ++ opener ++ nl ++ cards_html rows ++ nl ++ g3 ++ post).
Proof.
  intros Hne Hrows H.
  apply splice_some in H as (pre & t & n2 & n3 & -> & Hmin & Ht & ->).
  pose proof (lazy_body_some _ _ _ Ht) as (Hle & _ & Hat & _).
  set (g3 := take n3 (drop n2 t)) in *. set (post := drop (n2 + n3) t) in *.
  assert (Hg : closer_at (g3 ++ post) = Some post).
  { unfold g3, post in *. rewrite <- drop_drop, take_drop. rewrite <- drop_drop in Hat.
    exact Hat. }
  assert (Hclosing : Spec.closing g3).
  { apply closer_at_spec in Hg as (g & Hg1 & Hg2). apply app_inv_tail in Hg2. congruence. }
  exists pre, g3, post. split; [exact Hclosing|]. split; [reflexivity|].
  set (b := concat (map block rows)).
  assert (Hy : nl ++ cards_html rows ++ g3 ++ post = b ++ nl ++ g3 ++ post).
  { rewrite app_assoc, (cards_blocks rows Hne), <- app_assoc. reflexivity. }
  destruct (blocks_no_closing rows (nl ++ g3 ++ post) Hrows (closing_goes_on _ _ Hclosing))
    as [Hnone _]. fold b in Hnone.
  pose proof (closing_with_line g3 post Hclosing) as Hline.
  destruct (lazy_body_least (b ++ nl ++ g3 ++ post) (length b) post) as (m2 & m3 & Hb & Hm2).
  { rewrite drop_app_length. exact Hline. }
  pose proof (lazy_body_some _ _ _ Hb) as (Hle' & _ & Hat' & _).
  assert (m2 = length b) as ->.
  { destruct (decide (m2 < length b)) as [Hlt|]; [|lia].
    rewrite (Hnone _ Hlt) in Hat'. discriminate. }
  rewrite drop_app_length, Hline in Hat'. injection Hat' as Hpost.
  assert (m3 = length (nl ++ g3)) as ->.
  { apply (f_equal (@length ascii)) in Hpost.
    rewrite length_drop in Hpost.
    repeat rewrite length_app in Hpost. repeat rewrite length_app in Hle'.
    repeat rewrite length_app. cbn [length] in Hpost. repeat rewrite length_app in Hpost.
    change (length nl) with 1 in *. lia. }
  rewrite Hy.
  rewrite (splice_at (cards_html rows) pre (b ++ nl ++ g3 ++ post) (length b) (length (nl ++ g3)));
    [| |exact Hb].
  - f_equal. rewrite drop_app_length, drop_app_add, (app_assoc nl g3 post).
    rewrite take_app_length, drop_app_length.
    repeat (rewrite <- app_assoc || rewrite <- app_comm_cons). reflexivity.
  - intros k Hk. apply (no_earlier_opener pre t _ n2 n3 k Hmin Ht Hk).
Qed.

End RerunFacts.

Module NewlineFacts.
Import Py PyFacts TagApplier PatternFacts Extra.

Lemma read_text_no_return raw : "013"%char ∉ read_text raw.
Proof.
  induction raw as [|c rest IH]; [apply not_elem_of_nil|].
  cbn [read_text]. case_bool_decide as Hc.
  - destruct rest as [|c' rest']; [|destruct (decide (c' = "010"%char)) as [->|Hc']].
    + cbn. apply not_elem_of_cons. split; [discriminate | apply not_elem_of_nil].
    + exact IH.
    + assert (match c' :: rest' with
              | "010"%char :: _ => read_text (c' :: rest')
              | _ => "010"%char :: read_text (c' :: rest')
              end = "010"%char :: read_text (c' :: rest')) as ->.
      { destruct c' as [[] [] [] [] [] [] [] []]; try reflexivity. congruence. }
      apply not_elem_of_cons. split; [discriminate | exact IH].
  - apply not_elem_of_cons. split; [congruence | exact IH].
Qed.

Lemma read_text_plain s : "013"%char ∉ s -> read_text s = s.
Proof.
  induction s as [|c s IH]; [reflexivity|]. intros H.
  apply not_elem_of_cons in H as [Hc Hs]. cbn [read_text].
  rewrite bool_decide_eq_false_2 by congruence. rewrite IH by exact Hs. reflexivity.
Qed.

Lemma return_check a :
  forallb (fun c => negb (Ascii.eqb c "013"%char)) a = true -> "013"%char ∉ a.
Proof.
  intros H Hin. rewrite forallb_forall in H.
  apply list_elem_of_In in Hin. specialize (H _ Hin).
  rewrite Ascii.eqb_refl in H. discriminate.
Qed.

Lemma title_no_return name : "013"%char ∉ title_from_name name.
Proof.
  rewrite TitleFacts.title_from_name_base. unfold Spec.title_of_base. intros Hin.
  destruct (TitleShape.capitalize_words _
              (WordFacts.fields_words Spec.word_sep (rsplit1_head "."%char name)))
    as (H1 & _ & _).
  assert (Forall (fun c => c <> "013"%char)
            (join (lit " ") (map capitalize (fields Spec.word_sep (rsplit1_head "."%char name)))))
    as Hall.
  { apply (WordFacts.join_chars " "%char (fun c => c <> "013"%char)); [discriminate|].
    eapply Forall_impl; [exact H1|]. intros w [_ Hw].
    eapply Forall_impl; [exact Hw|]. intros c Hc ->. discriminate. }
  rewrite Forall_forall in Hall. exact (Hall _ Hin eq_refl).
Qed.

Lemma card_no_return r : no_return r -> "013"%char ∉ card r.1 r.2.
Proof.
  intros [Hf Ht]. pose proof (title_no_return r.1) as Htitle. unfold card.
  repeat (apply not_elem_of_app; split);
    first [assumption | apply return_check; reflexivity].
Qed.

Lemma cards_no_return rows :
  Forall no_return rows -> "013"%char ∉ cards_html rows.
Proof.
  intros Hrows. unfold cards_html. apply not_elem_of_app.
  split; [|apply return_check; reflexivity].
  induction Hrows as [|r rows Hr _ IH]; [apply not_elem_of_nil|].
  cbn [map]. rewrite join_cons. apply not_elem_of_app. split; [apply card_no_return, Hr|].
  destruct rows as [|r' rows']; [apply not_elem_of_nil|].
  apply not_elem_of_app. split; [apply return_check; reflexivity | exact IH].
Qed.

(** A splice brings in no character but those of the cards, the opening
    tag and the line feed. *)
Lemma splice_chars c html h1 x :
  splice c html = Some h1 -> x ∈ h1 ->
  x ∈ html \/ x ∈ opener \/ x ∈ nl \/ x ∈ c.
Proof.
  intros Hs Hx.
  apply AnchorFacts.splice_first_match in Hs as (i & g2 & g3 & post & _ & _ & Hdrop & ->).
  assert (forall y, y ∈ take i html ++ drop i html -> y ∈ html) as Hback
    by (intros y Hy; rewrite take_drop in Hy; exact Hy).
  rewrite Hdrop in Hback.
  rewrite !elem_of_app in Hx. destruct Hx as [Hx | [Hx | [Hx | [Hx | [Hx | Hx]]]]]; auto.
  - left. apply Hback. rewrite elem_of_app. left. exact Hx.
  - left. apply Hback. rewrite !elem_of_app. right. right. right. left. exact Hx.
  - left. apply Hback. rewrite !elem_of_app. right. right. right. right. exact Hx.
Qed.

Lemma splice_no_return c html h1 :
  "013"%char ∉ html -> "013"%char ∉ c ->
  splice c html = Some h1 -> "013"%char ∉ h1.
Proof.
  intros Hhtml Hc Hs Hin.
  destruct (splice_chars _ _ _ _ Hs Hin) as [H | [H | [H | H]]]; [auto| | |auto].
  - revert H. apply return_check. reflexivity.
  - revert H. apply return_check. reflexivity.
Qed.

End NewlineFacts.

(** X17. How far the script is from idempotent. The page is read with
    [read_text], which turns every carriage return into a line feed.
    When no retained file name or tag holds a line feed or a carriage
    return, the page that a completed run writes is read back as it was
    written, and running the script again with the same CSV file
    reproduces it with exactly one more line feed, put between the cards
    and the closing sequence; the text before the match, the cards, the
    closing sequence and the text after it are as the first run wrote
    them. *)
Theorem rerun_adds_one_line (f : TagApplier.csv_file) (names : list str)
    (rows : list (str * str)) (raw : str)
    (Hheader : TagApplier.fieldnames f = Some names)
    (Hfilename : lit "filename" ∈ names)
    (Htag : lit "tag" ∈ names)
    (Hrows : TagApplier.load_rows (TagApplier.records f) = inr rows)
    (Hlines : Forall Extra.one_line rows)
    (Hreturns : Forall Extra.no_return rows)
    (Hrun : TagApplier.res_exit (TagApplier.run (Some f) (Some (Extra.read_text raw)))
              = TagApplier.Completed) :
  exists pre g3 post,
    Spec.closing g3 /\
    TagApplier.res_html (TagApplier.run (Some f) (Some (Extra.read_text raw)))
      = Some (pre ++ TagApplier.opener ++ nl ++ TagApplier.cards_html rows ++ g3 ++ post) /\
    Extra.read_text (pre ++ TagApplier.opener ++ nl ++ TagApplier.cards_html rows ++ g3 ++ post)
      = pre ++ TagApplier.opener ++ nl ++ TagApplier.cards_html rows ++ g3 ++ post /\
    TagApplier.res_exit
      (TagApplier.run (Some f)
         (Some (Extra.read_text
                  (pre ++ TagApplier.opener ++ nl ++ TagApplier.cards_html rows ++ g3 ++ post))))
      = TagApplier.Completed /\
    TagApplier.res_html
      (TagApplier.run (Some f)
         (Some (Extra.read_text
                  (pre ++ TagApplier.opener ++ nl ++ TagApplier.cards_html rows ++ g3 ++ post))))
      = Some (pre ++ TagApplier.opener ++ nl ++ TagApplier.cards_html rows ++ nl ++ g3 ++ post).
Proof.
  assert (Hshape : rows <> [] /\ forall text,
    TagApplier.run (Some f) (Some text) =
      match TagApplier.splice (TagApplier.cards_html rows) text with
      | None => TagApplier.stop
                  (TagApplier.SystemExit
                     (lit "Could not find masonryGrid container in gallery.html"))
                  [] (Some text)
      | Some text' =>
          TagApplier.stop TagApplier.Completed
            [lit "Updated gallery.html with " ++ Py.decimal (length rows)
               ++ lit " tagged photos"]
            (Some text')
      end).
  { revert Hrun. unfold TagApplier.run. rewrite Hheader.
    rewrite !bool_decide_eq_true_2 by assumption. cbn [negb orb]. rewrite Hrows.
    destruct rows as [|row rows']; [discriminate|].
    destruct (TagApplier.missing_tags (row :: rows')); [|discriminate].
    intros _. split; [discriminate | reflexivity]. }
  destruct Hshape as [Hne Hshape].
  rewrite Hshape in Hrun.
  destruct (TagApplier.splice (TagApplier.cards_html rows) (Extra.read_text raw))
    as [h1|] eqn:Hs; [|discriminate].
  pose proof (NewlineFacts.splice_no_return _ _ _ (NewlineFacts.read_text_no_return raw)
                (NewlineFacts.cards_no_return rows Hreturns) Hs) as Hplain.
  destruct (RerunFacts.splice_rerun_exact rows _ h1 Hne Hlines Hs)
    as (pre & g3 & post & Hg3 & -> & Hs2).
  exists pre, g3, post. split; [exact Hg3|].
  rewrite (NewlineFacts.read_text_plain _ Hplain).
  rewrite !Hshape, Hs, Hs2. repeat split; reflexivity.
Qed.

Lemma rerun_adds_one_line_witness :
  exists pre g3 post,
    Spec.closing g3 /\
    TagApplier.res_html
      (TagApplier.run (Some Fixtures.tagged_csv) (Some (Extra.read_text Fixtures.gallery)))
      = Some (pre ++ TagApplier.opener ++ nl
                ++ TagApplier.cards_html [(lit "a.jpg", lit "beach")] ++ g3 ++ post) /\
    Extra.read_text (pre ++ TagApplier.opener ++ nl
                       ++ TagApplier.cards_html [(lit "a.jpg", lit "beach")] ++ g3 ++ post)
      = pre ++ TagApplier.opener ++ nl
          ++ TagApplier.cards_html [(lit "a.jpg", lit "beach")] ++ g3 ++ post /\
    TagApplier.res_exit
      (TagApplier.run (Some Fixtures.tagged_csv)
         (Some (Extra.read_text
                  (pre ++ TagApplier.opener ++ nl
                     ++ TagApplier.cards_html [(lit "a.jpg", lit "beach")] ++ g3 ++ post))))
      = TagApplier.Completed /\
    TagApplier.res_html
      (TagApplier.run (Some Fixtures.tagged_csv)
         (Some (Extra.read_text
                  (pre ++ TagApplier.opener ++ nl
                     ++ TagApplier.cards_html [(lit "a.jpg", lit "beach")] ++ g3 ++ post))))
      = Some (pre ++ TagApplier.opener ++ nl
                ++ TagApplier.cards_html [(lit "a.jpg", lit "beach")] ++ nl ++ g3 ++ post).
Proof.
  apply (rerun_adds_one_line Fixtures.tagged_csv [lit "filename"; lit "tag"]
           [(lit "a.jpg", lit "beach")] Fixtures.gallery).
  - reflexivity.
  - repeat constructor.
  - repeat constructor.
  - vm_compute. reflexivity.
  - constructor; [|constructor]. split; apply RerunFacts.plain_check; reflexivity.
  - constructor; [|constructor]. split; apply NewlineFacts.return_check; reflexivity.
  - vm_compute. reflexivity.
Defined.

(** X18. The numeric suffix can be read back, and the probing never
    tests a path twice: the candidates for two different suffixes are
    two different paths, whatever the folder, base and extension. *)
Theorem probes_distinct (directory base ext : str) (i j : nat) :
  Aux.read_nat (Py.fmt02d i) = Some i /\
  (CaptionRenamer.candidate directory base ext i = CaptionRenamer.candidate directory base ext j
   -> i = j).
Proof. split; [apply PathFacts.read_fmt02d | apply UniquePath.candidate_inj]. Qed.

Section LoopEnds.
Import Py CaptionRenamer.

Variable guess_type : str -> option str.
Variable b64encode : str -> str.
Variable abspath : str -> str.
Variable listdir : str -> list str.
Variable create : nat -> str -> str -> nat -> api_result.

Local Abbreviation handle := (handle guess_type b64encode abspath create).
Local Abbreviation process := (process guess_type b64encode abspath create).



End LoopEnds.

Module ExtFacts.
Import Py.

Lemma rfind_bound c s i : rfind c s = Some i -> i < length s.
Proof.
  revert i. induction s as [|x t IH]; intros i; [discriminate|]. simpl.
  destruct (rfind c t) as [j|].
  - intros [= <-]. specialize (IH j eq_refl). lia.
  - case_bool_decide; [intros [= <-]; lia | discriminate].
Qed.

(** [splitext] cuts the name in two; an extension, if any, leaves a root. *)
Lemma splitext_parts p :
  (splitext p).1 ++ (splitext p).2 = p /\
  ((splitext p).2 <> [] -> (splitext p).1 <> []).
Proof.
  unfold splitext. destruct (rfind "."%char p) as [d|] eqn:Hd;
    [|split; [apply app_nil_r | intros H; exfalso; apply H; reflexivity]].
  destruct (_ && _) eqn:Hc;
    [|split; [apply app_nil_r | intros H; exfalso; apply H; reflexivity]].
  simpl. split; [apply take_drop|]. intros _.
  apply andb_true_iff in Hc as [Hle Hdots]. apply negb_true_iff in Hdots.
  apply rfind_bound in Hd.
  destruct d as [|d]; [|destruct p; [simpl in Hd; lia | discriminate]].
  exfalso. rewrite Nat.sub_0_l in Hdots. discriminate.
Qed.

End ExtFacts.

(** X20. An image keeps its extension, in lowercase: what [iter_images]
    yields for a name is the lowercased tail of that name, after a root
    that is not empty, and the destination computed for it ends with
    that extension. *)
Theorem extension_kept (fs : gmap str CaptionRenamer.node) (folder name path ext : str)
    (Hyield : CaptionRenamer.qualify fs folder name = Some (name, path, ext)) :
  (exists root e, name = root ++ e /\ root <> [] /\ e <> [] /\ ext = Py.lower e) /\
  (forall fuel fs' directory caption p,
     CaptionRenamer.unique_path fuel fs' directory
       (CaptionRenamer.sanitize_caption caption) ext = Some p ->
     exists stem, Py.basename p = stem ++ ext).
Proof.
  assert (Hq := Hyield).
  apply (qualify_some (fun _ => [])) in Hq as ([= -> ->] & _ & _ & Hext).
  split.
  - destruct (ExtFacts.splitext_parts name) as [Hparts Hroot].
    exists (Py.splitext name).1, (Py.splitext name).2.
    assert ((Py.splitext name).2 <> []) as Hne.
    { intros E. rewrite E in Hext. vm_compute in Hext.
      repeat (apply elem_of_cons in Hext as [Hext|Hext]; [discriminate|]). inversion Hext. }
    split; [symmetry; exact Hparts|]. split; [exact (Hroot Hne)|]. split; [exact Hne | reflexivity].
  - intros fuel fs' directory caption p Hp.
    destruct (new_name_shape fuel fs' directory caption _ p Hext Hp)
      as (_ & [-> | (i & _ & ->)] & _).
    + eexists. reflexivity.
    + eexists. rewrite !app_assoc. reflexivity.
Qed.

Module ExtractFacts.
Import CaptionRenamer.

Lemma first_output_text_none parts :
  Forall (fun p => part_type p <> Some (lit "output_text")) parts ->
  first_output_text parts = None.
Proof.
  induction 1 as [|p parts Hp _ IH]; [reflexivity|]. simpl.
  rewrite bool_decide_eq_false_2 by exact Hp. exact IH.
Qed.

Lemma first_output_text_found before p after :
  Forall (fun q => part_type q <> Some (lit "output_text")) before ->
  part_type p = Some (lit "output_text") ->
  first_output_text (before ++ p :: after) = Some (part_text p).
Proof.
  intros Hb Hp. induction Hb as [|q before Hq _ IH]; simpl.
  - rewrite bool_decide_eq_true_2 by exact Hp. reflexivity.
  - rewrite bool_decide_eq_false_2 by exact Hq. exact IH.
Qed.

Lemma scan_output_passed items rest :
  Forall Extra.passed_over items -> scan_output (items ++ rest) = scan_output rest.
Proof.
  induction 1 as [|item items Hi _ IH]; [reflexivity|]. simpl.
  destruct Hi as [Hty | Hparts].
  - rewrite bool_decide_eq_false_2 by exact Hty. exact IH.
  - case_bool_decide; [|exact IH].
    rewrite (first_output_text_none _ Hparts). exact IH.
Qed.

End ExtractFacts.

(** X21. [extract_output_text] prefers the field [output_text]: a text
    there that is not empty is returned whatever the items hold.
    Without it, the answer is the text of the first part of type
    [output_text] in the first message that has one, items of other
    types being passed over; that part decides alone, so that a
    missing text there gives [None] even if later items hold a text.
    With no such part at all the answer is [None]. *)
Theorem extract_output_text_order (resp : CaptionRenamer.response) :
  (forall c t, CaptionRenamer.output_text resp = Some (c :: t) ->
     CaptionRenamer.extract_output_text resp = Some (c :: t)) /\
  (forall skipped item rest before p after,
     CaptionRenamer.output_text resp = None \/ CaptionRenamer.output_text resp = Some [] ->
     CaptionRenamer.output resp = skipped ++ item :: rest ->
     Forall Extra.passed_over skipped ->
     CaptionRenamer.item_type item = Some (lit "message") ->
     CaptionRenamer.item_content item = before ++ p :: after ->
     Forall (fun q => CaptionRenamer.part_type q <> Some (lit "output_text")) before ->
     CaptionRenamer.part_type p = Some (lit "output_text") ->
     CaptionRenamer.extract_output_text resp = CaptionRenamer.part_text p) /\
  (CaptionRenamer.output_text resp = None \/ CaptionRenamer.output_text resp = Some [] ->
   Forall Extra.passed_over (CaptionRenamer.output resp) ->
   CaptionRenamer.extract_output_text resp = None).
Proof.
  unfold CaptionRenamer.extract_output_text. split; [|split].
  - intros c t ->. reflexivity.
  - intros skipped item rest before p after Hot Hout Hskip Hty Hcontent Hbefore Hp.
    assert (CaptionRenamer.scan_output (CaptionRenamer.output resp) = CaptionRenamer.part_text p)
      as Hscan.
    { rewrite Hout, (ExtractFacts.scan_output_passed _ _ Hskip). simpl.
      rewrite bool_decide_eq_true_2 by exact Hty.
      rewrite Hcontent, (ExtractFacts.first_output_text_found _ _ _ Hbefore Hp). reflexivity. }
    destruct Hot as [-> | ->]; exact Hscan.
  - intros Hot Hall.
    assert (CaptionRenamer.scan_output (CaptionRenamer.output resp) = None) as Hscan.
    { rewrite <- (app_nil_r (CaptionRenamer.output resp)).
      rewrite (ExtractFacts.scan_output_passed _ [] Hall). reflexivity. }
    destruct Hot as [-> | ->]; exact Hscan.
Qed.

(** X22. The generated fragment holds one card for each retained row, in
    the order of the rows, each followed by a line feed; the fragments
    of two lists of rows, put one after the other, make the fragment of
    the two lists joined. *)
Theorem cards_html_per_row (rows more : list (str * str)) :
  (rows <> [] ->
   TagApplier.cards_html rows
     = concat (map (fun r => TagApplier.card (fst r) (snd r) ++ nl) rows)) /\
  (rows <> [] -> more <> [] ->
   TagApplier.cards_html (rows ++ more)
     = TagApplier.cards_html rows ++ TagApplier.cards_html more).
Proof.
  assert (Hone : forall l : list (str * str), l <> [] ->
    TagApplier.cards_html l
      = concat (map (fun r => TagApplier.card (fst r) (snd r) ++ nl) l)).
  { intros l Hl. unfold TagApplier.cards_html.
    induction l as [|r l IH]; [congruence|].
    cbn [map concat]. rewrite PyFacts.join_cons, <- !app_assoc. f_equal.
    destruct l as [|r' l']; [reflexivity|].
    cbn [map] in *. rewrite <- IH by discriminate. rewrite <- app_assoc. reflexivity. }
  split; [apply Hone|].
  intros Hr Hm. rewrite !Hone; try assumption.
  - rewrite map_app, concat_app. reflexivity.
  - destruct rows; [congruence | discriminate].
Qed.

(** * The further properties at concrete inputs *)
Section MoreWitnesses.
Import Fixtures CaptionRenamer.



Lemma iter_images_listing_order_witness :
  iter_images (fun _ => [lit "photo_02.jpg"; lit "photo.jpg"]) two_photos (lit "photos")
  = iter_images (fun _ => [lit "photo.jpg"; lit "photo_02.jpg"]) two_photos (lit "photos").
Proof.
  apply (iter_images_listing_order (fun _ => [lit "photo_02.jpg"; lit "photo.jpg"])
           (fun _ => [lit "photo.jpg"; lit "photo_02.jpg"]) two_photos (lit "photos")).
  apply perm_swap.
Defined.

Lemma new_name_shape_witness :
  lit "photos/photo_03.jpg" = Py.path_join (lit "photos") (Py.basename (lit "photos/photo_03.jpg")) /\
  (Py.basename (lit "photos/photo_03.jpg") = sanitize_caption (lit "Photo") ++ lit ".jpg" \/
   exists i, 2 <= i /\
     Py.basename (lit "photos/photo_03.jpg")
       = sanitize_caption (lit "Photo") ++ lit "_" ++ Py.fmt02d i ++ lit ".jpg") /\
  Forall (fun c => Extra.name_char c = true \/ c = "."%char)
    (Py.basename (lit "photos/photo_03.jpg")) /\
  ("/"%char ∉ Py.basename (lit "photos/photo_03.jpg")).
Proof.
  apply (new_name_shape 3 two_photos (lit "photos") (lit "Photo") (lit ".jpg")
           (lit "photos/photo_03.jpg")).
  - repeat constructor.
  - vm_compute. reflexivity.
Defined.

Lemma extension_kept_witness :
  (exists root e, lit "Photo.JPG" = root ++ e /\ root <> [] /\ e <> [] /\ lit ".jpg" = Py.lower e) /\
  (forall fuel fs' directory caption p,
     unique_path fuel fs' directory (sanitize_caption caption) (lit ".jpg") = Some p ->
     exists stem, Py.basename p = stem ++ lit ".jpg").
Proof.
  apply (extension_kept (<[lit "photos/Photo.JPG" := File (Some [])]> ∅) (lit "photos")
           (lit "Photo.JPG") (lit "photos/Photo.JPG") (lit ".jpg")).
  vm_compute. reflexivity.
Defined.

Lemma extract_output_text_order_witness :
  extract_output_text
    {| output_text := None;
       output := [ {| item_type := Some (lit "reasoning"); item_content := [] |};
                   {| item_type := Some (lit "message");
                      item_content := [ {| part_type := Some (lit "refusal"); part_text := None |};
                                        {| part_type := Some (lit "output_text");
                                           part_text := Some (lit "a cat") |} ] |} ] |}
  = Some (lit "a cat").
Proof.
  apply (proj1 (proj2 (extract_output_text_order _))
           [ {| item_type := Some (lit "reasoning"); item_content := [] |} ]
           {| item_type := Some (lit "message");
              item_content := [ {| part_type := Some (lit "refusal"); part_text := None |};
                                {| part_type := Some (lit "output_text");
                                   part_text := Some (lit "a cat") |} ] |}
           []
           [ {| part_type := Some (lit "refusal"); part_text := None |} ]
           {| part_type := Some (lit "output_text"); part_text := Some (lit "a cat") |}
           []).
  - left. reflexivity.
  - reflexivity.
  - constructor; [|constructor]. left. discriminate.
  - reflexivity.
  - reflexivity.
  - constructor; [|constructor]. discriminate.
  - reflexivity.
Defined.

Lemma cards_html_per_row_witness :
  TagApplier.cards_html ([(lit "a.jpg", lit "beach")] ++ [(lit "b.jpg", lit "sea")])
  = TagApplier.cards_html [(lit "a.jpg", lit "beach")]
      ++ TagApplier.cards_html [(lit "b.jpg", lit "sea")].
Proof.
  apply (proj2 (cards_html_per_row [(lit "a.jpg", lit "beach")] [(lit "b.jpg", lit "sea")]));
    discriminate.
Defined.

Lemma caption_image_outcome_witness :
  caption_image (Returns {| output_text := Some (lit " Photo "); output := [] |})
    = inr (Py.strip (lit " Photo ")).
Proof.
  apply (proj2 (proj1 (caption_image_outcome
                         (Returns {| output_text := Some (lit " Photo "); output := [] |}))
                  (Py.strip (lit " Photo ")))).
  exists {| output_text := Some (lit " Photo "); output := [] |}, " "%char, (lit "Photo ").
  split; [reflexivity|]. split; reflexivity.
Defined.

Lemma main_returns_one_witness :
  (main guess_jpeg b64_plain abspath_srv listdir_photos (fun _ => Some []) steady_service
     (renamer_args false) one_photo).1 = Return 1.
Proof.
  apply (proj2 (proj1 (main_returns_one guess_jpeg b64_plain abspath_srv listdir_photos
                         (fun _ => Some []) steady_service (renamer_args false) one_photo))).
  right. left. reflexivity.
Defined.

Lemma load_rows_keeps_order_witness :
  TagApplier.load_rows (TagApplier.records untagged_csv)
    = inr [(lit "a.jpg", lit "beach"); (lit "b.jpg", []); (lit "c.jpg", [])].
Proof.
  apply (proj1 (load_rows_keeps_order (TagApplier.records untagged_csv))).
  repeat constructor; eexists; reflexivity.
Defined.

Lemma run_completes_iff_witness :
  exists f, Some tagged_csv = Some f /\
    TagApplier.res_stdout (TagApplier.run (Some tagged_csv) (Some gallery))
      = [lit "Updated gallery.html with "
           ++ Py.decimal (length (omap Extra.retain (TagApplier.records f)))
           ++ lit " tagged photos"].
Proof.
  apply (proj2 (run_completes_iff (Some tagged_csv) (Some gallery))).
  vm_compute. reflexivity.
Defined.


Lemma sanitize_caption_insensitive_witness :
  sanitize_caption (Py.upper (lit "a walk, 2 dogs")) = sanitize_caption (lit "a walk, 2 dogs").
Proof.
  apply (proj2 (proj2 (sanitize_caption_insensitive (lit "a walk, 2 dogs")))).
  unfold Extra.seven_bit. repeat constructor.
Defined.

Lemma main_keeps_unlisted_witness :
  st_fs (main guess_jpeg b64_plain abspath_srv listdir_photos getenv_key steady_service
           (renamer_args false) one_photo).2 !! lit "photos" = Some Dir.
Proof.
  apply (main_keeps_unlisted guess_jpeg b64_plain abspath_srv listdir_photos getenv_key
           steady_service (renamer_args false) one_photo (lit "photos") Dir).
  - reflexivity.
  - intros Hin. apply list_elem_of_In in Hin. vm_compute in Hin.
    destruct Hin as [H | [H | []]]; discriminate.
Defined.

End MoreWitnesses.
